(** * Security camera event pipeline: a shallow embedding and its properties

    The development follows the Python sources of the camera daemon:
    - [circular_buffer.py]: the bounded encoder ring, the two-frame picture
      cache and the video save protocol;
    - [motion_detector.py]: the pixel-difference comparison and the handling
      of a detected motion;
    - [motion_event.py], [database.py]: the one-slot signal and the event store;
    - [event_processor.py]: the timed processing of one event;
    - [config.py], [sec_cam_main.py]: configuration validation and start-up.

    Python integers are [Z]; the deque of the encoder output is a [list] whose
    head is the oldest entry; tables and the file system are [gmap]s; code that
    can raise returns a [result].  Wall-clock readings are integers in
    milliseconds. *)

From Stdlib Require Import ZArith QArith.
From stdpp Require Import gmap strings list.

Set Warnings "-register-all".
Open Scope Z_scope.

(** ** Python values held by the encoder deque

    The deque entries are untyped in the source and the dump code probes them
    with [isinstance]; the embedding keeps that dynamic typing. *)

Inductive pyobj : Type :=
| PyNone
| PyBool (b : bool)
| PyInt (n : Z)
| PyBytes (data : list Byte.byte)
| PyTuple (items : list pyobj).

(** Python truth value of an object ([if x:]). *)
Definition truthy (o : pyobj) : bool :=
  match o with
  | PyNone => false
  | PyBool b => b
  | PyInt n => negb (n =? 0)
  | PyBytes d => negb (Nat.eqb (length d) 0)
  | PyTuple l => negb (Nat.eqb (length l) 0)
  end.

(** [len(x)] as a Python integer. *)
Definition py_len {A} (l : list A) : Z := Z.of_nat (length l).

(** ** Exceptions *)

Inductive exn : Type :=
| IndexError
| ZeroDivisionError
| TypeError (unexpected_keyword : string)
| ImportError (name : string)
| NameError (name : string)
| ValueError
| OSError
| IOError
| CvError
| CameraError
| Sqlite3Error
| RuntimeError (cause : exn)
| LoopBound.   (* raised by the model only: an iteration bound was too small *)

Inductive result (A : Type) : Type :=
| Ok (a : A)
| Raise (e : exn).
Arguments Ok {A} a.
Arguments Raise {A} e.

Definition is_ok {A} (r : result A) : bool :=
  match r with Ok _ => true | Raise _ => false end.

(** ** Time

    The clock counts milliseconds; the source reads it in seconds. *)

Definition clock_hz : Z := 1000.
Definition seconds (s : Z) : Z := s * clock_hz.

(** ** The bounded chunk ring ([BoundedCircularOutput]) *)

Module Ring.

Record BoundedCircularOutput : Type := mkRing {
  _circular : list pyobj;      (* oldest entry first *)
  max_chunks : Z;
  _chunk_count : Z;            (* evictions so far *)
  buffersize : Z
}.

(** [__init__]: an empty deque and a zero eviction counter. *)
Definition init (buffersize0 max_chunks0 : Z) : BoundedCircularOutput :=
  {| _circular := []; max_chunks := max_chunks0; _chunk_count := 0;
     buffersize := buffersize0 |}.

(** The eviction loop of [outputframe]:
    [while len(self._circular) >= self.max_chunks: popleft(); count += 1],
    where [popleft] on an empty deque raises [IndexError] and the handler
    leaves the loop. *)
Fixpoint evict_oldest (maxc : Z) (circ : list pyobj) (count : Z)
  : list pyobj * Z :=
  match circ with
  | [] => ([], count)
  | _ :: rest =>
      if maxc <=? py_len circ
      then evict_oldest maxc rest (count + 1)
      else (circ, count)
  end.

(** Modelled from the spec: the parent class [CircularOutput.outputframe] of
    the camera library is not part of the sources; the spec says that after
    the eviction the chunk is pushed at the back of the ring, as the pair
    [(frame, keyframe)] that the dump code reads back. *)
Definition parent_outputframe (circ : list pyobj) (frame keyframe : pyobj)
  : list pyobj :=
  circ ++ [PyTuple [frame; keyframe]].

Definition outputframe (r : BoundedCircularOutput) (frame keyframe : pyobj)
  : BoundedCircularOutput :=
  let '(circ, count) :=
    evict_oldest (max_chunks r) (_circular r) (_chunk_count r) in
  {| _circular := parent_outputframe circ frame keyframe;
     max_chunks := max_chunks r;
     _chunk_count := count;
     buffersize := buffersize r |}.

(** [self.circular_output._circular.clear()] of the save protocol. *)
Definition clear (r : BoundedCircularOutput) : BoundedCircularOutput :=
  {| _circular := []; max_chunks := max_chunks r;
     _chunk_count := _chunk_count r; buffersize := buffersize r |}.

Definition ring_len (r : BoundedCircularOutput) : Z := py_len (_circular r).

(** The ring before and after each append of a sequence: the observation
    points of a run of the encoder callback. *)
Fixpoint observations (r : BoundedCircularOutput)
  (appends : list (pyobj * pyobj)) : list BoundedCircularOutput :=
  match appends with
  | [] => [r]
  | fk :: rest => r :: observations (outputframe r fk.1 fk.2) rest
  end.

Definition run_appends (r : BoundedCircularOutput)
  (appends : list (pyobj * pyobj)) : BoundedCircularOutput :=
  fold_left (fun r fk => outputframe r fk.1 fk.2) appends r.

(** *** [get_buffer_health] *)

Inductive health_status := optimal | filling | low | critically_low.

Record BufferHealth : Type := mkHealth {
  current_chunks : Z;
  health_max_chunks : Z;
  utilization_pct : Q;
  is_healthy : bool;
  status : health_status;
  eviction_count : Z
}.

(** [None] is the result of the bare [except: return None], reached by the
    division when [max_chunks] is 0. *)
Definition get_buffer_health (r : BoundedCircularOutput) : option BufferHealth :=
  let current := ring_len r in
  let maximum := max_chunks r in
  if maximum =? 0 then None else
  let utilization := ((inject_Z current / inject_Z maximum) * 100)%Q in
  let '(healthy, st) :=
    if Qle_bool 80 utilization then (true, optimal)
    else if Qle_bool 50 utilization then (true, filling)
    else if Qle_bool 30 utilization then (true, low)
    else (false, critically_low) in
  Some {| current_chunks := current; health_max_chunks := maximum;
          utilization_pct := utilization; is_healthy := healthy;
          status := st; eviction_count := _chunk_count r |}.

End Ring.

(** ** Frames

    A camera frame is a [uint8] array, either three-dimensional (rows of
    RGB888 pixels) or two-dimensional (a single plane). *)

Inductive ndarray : Type :=
| Array3 (rows : list (list (Z * Z * Z)))
| Array2 (rows : list (list Z)).

Definition ndim (a : ndarray) : Z :=
  match a with Array3 _ => 3 | Array2 _ => 2 end.

(** ** The two-frame picture cache of [CircularBuffer] *)

Module FramePair.

Record CircularBuffer : Type := mkPair {
  previous_frame : option ndarray;
  current_frame : option ndarray
}.

(** [__init__]: both slots are [None]. *)
Definition init : CircularBuffer :=
  {| previous_frame := None; current_frame := None |}.

(** The update of [_capture_pictures] under [frame_lock]:
    [previous_frame = current_frame; current_frame = frame]. *)
Definition push (b : CircularBuffer) (frame : ndarray) : CircularBuffer :=
  {| previous_frame := current_frame b; current_frame := Some frame |}.

Definition pushes (b : CircularBuffer) (frames : list ndarray) : CircularBuffer :=
  fold_left push frames b.

Section Detection.

(** [cv2.resize(frame, DETECTION_RESOLUTION, interpolation=INTER_AREA)]
    followed by [.copy()]: a function of the image library. *)
Variable resize : ndarray -> ndarray.

Definition get_frames_for_detection (b : CircularBuffer)
  : option ndarray * option ndarray :=
  match previous_frame b, current_frame b with
  | Some prev, Some curr => (Some (resize prev), Some (resize curr))
  | _, _ => (None, None)
  end.

End Detection.

(** [get_latest_frame_for_livestream]. *)
Definition get_latest_frame_for_livestream (b : CircularBuffer) : option ndarray :=
  current_frame b.

End FramePair.

(** ** Sequencing of computations that can raise *)

#[global] Instance result_ret : MRet result := fun A a => Ok a.

#[global] Instance result_bind : MBind result := fun A B k r =>
  match r with
  | Ok a => k a
  | Raise e => Raise e
  end.

(** ** The motion detector: state and frame comparison *)

Module Motion.

Record MotionDetector : Type := mkDetector {
  threshold : Z;               (* MOTION_THRESHOLD *)
  sensitivity : Z;             (* MOTION_SENSITIVITY *)
  cooldown_seconds : Z;        (* MOTION_COOLDOWN_SECONDS *)
  running : bool;
  last_detection_time : Z;     (* 0 until the first handled detection *)
  debug_mode : bool;
  _paused : bool               (* absent until pause() is called: False *)
}.

(** [__init__]. *)
Definition init (threshold0 sensitivity0 cooldown0 : Z) : MotionDetector :=
  {| threshold := threshold0; sensitivity := sensitivity0;
     cooldown_seconds := cooldown0; running := false;
     last_detection_time := 0; debug_mode := false; _paused := false |}.

Definition set_last_detection_time (t : Z) (d : MotionDetector) : MotionDetector :=
  {| threshold := threshold d; sensitivity := sensitivity d;
     cooldown_seconds := cooldown_seconds d; running := running d;
     last_detection_time := t; debug_mode := debug_mode d;
     _paused := _paused d |}.

Definition set_paused (p : bool) (d : MotionDetector) : MotionDetector :=
  {| threshold := threshold d; sensitivity := sensitivity d;
     cooldown_seconds := cooldown_seconds d; running := running d;
     last_detection_time := last_detection_time d; debug_mode := debug_mode d;
     _paused := p |}.

Definition pause : MotionDetector -> MotionDetector := set_paused true.
Definition resume : MotionDetector -> MotionDetector := set_paused false.

(** [_in_cooldown], with [now] the reading of [time.time()] inside it. *)
Definition _in_cooldown (d : MotionDetector) (now : Z) : bool :=
  if last_detection_time d =? 0 then false
  else
    let elapsed := now - last_detection_time d in
    elapsed <? seconds (cooldown_seconds d).

(** [frame[:, :, 1]]: the green plane of an RGB frame; indexing a
    two-dimensional array with three indices raises [IndexError]. *)
Definition green_channel (frame : ndarray) : result (list (list Z)) :=
  match frame with
  | Array3 rows => Ok (map (map (fun px : Z * Z * Z => px.1.2)) rows)
  | Array2 _ => Raise IndexError
  end.

Definition shape2 {A} (p : list (list A)) : list nat := map length p.

(** [cv2.absdiff] on [uint8] operands is the absolute difference: it cannot
    leave the range of the type.  Operands of different sizes are refused. *)
Definition absdiff (g1 : list (list Z)) (g2 : ndarray) : result (list (list Z)) :=
  match g2 with
  | Array2 rows2 =>
      if decide (shape2 g1 = shape2 rows2)
      then Ok (zip_with (zip_with (fun a b => Z.abs (a - b))) g1 rows2)
      else Raise CvError
  | Array3 _ => Raise CvError
  end.

(** [diff > self.threshold]: the boolean mask. *)
Definition greater (diff : list (list Z)) (t : Z) : list (list bool) :=
  map (map (fun d => t <? d)) diff.

(** [np.count_nonzero] of a boolean mask. *)
Definition count_nonzero (mask : list (list bool)) : Z :=
  fold_right (fun row acc => py_len (filter (fun b => b = true) row) + acc) 0 mask.

(** [_compare_frames].  [debug_image] is the outcome of the optional block
    that writes [debug.bmp]; it runs only in debug mode. *)
Definition _compare_frames (self : MotionDetector) (debug_image : result unit)
  (frame1 frame2 : ndarray) : result (bool * Z) :=
  '(g1, g2) ← match frame1 with
               | Array3 _ =>
                   g1 ← green_channel frame1;
                   g2 ← green_channel frame2;
                   Ok (g1, Array2 g2)
               | Array2 rows1 => Ok (rows1, frame2)
               end;
  diff ← absdiff g1 g2;
  let changed_pixels := count_nonzero (greater diff (threshold self)) in
  _ ← (if debug_mode self then debug_image else Ok tt);
  let motion_detected := sensitivity self <? changed_pixels in
  Ok (motion_detected, changed_pixels).

(** The plane that the comparison looks at: the green channel of a colour
    frame, the frame itself when it has a single plane. *)
Definition detection_plane (frame : ndarray) : list (list Z) :=
  match frame with
  | Array3 rows => map (map (fun px : Z * Z * Z => px.1.2)) rows
  | Array2 rows => rows
  end.

(** The value at row [i], column [j] of a raster. *)
Definition pixel {A} (p : list (list A)) (i j : nat) : option A :=
  row ← p !! i; row !! j.

End Motion.

(** ** Configuration ([config.py]) *)

Module Config.

(** The names of the configuration module.  The two names that
    [save_h264_as_mp4] imports and that [config.py] does not define are
    optional: [None] makes the [from config import ...] raise. *)
Record Config : Type := mkConfig {
  BASE_PATH : string;
  VIDEO_PATH : string;
  PICTURES_PATH : string;
  THUMBS_PATH : string;
  CIRCULAR_BUFFER_SECONDS : Z;
  POST_MOTION_SECONDS : Z;
  CIRCULAR_BUFFER_MAX_CHUNKS : Z;
  CIRCULAR_BUFFER_MAX_BYTES : Z;
  VIDEO_RESOLUTION : Z * Z;
  VIDEO_FRAMERATE : Z;
  VIDEO_BITRATE : Z;
  MOTION_THRESHOLD : Z;
  MOTION_SENSITIVITY : Z;
  MOTION_COOLDOWN_SECONDS : Z;
  POST_MOTION_BUFFER_FILL_PERCENT : option Q;
  POST_MOTION_TIMEOUT_SECONDS : option Z
}.

(** The values of [config.py]. *)
Definition shipped : Config :=
  {| BASE_PATH := "/home/pi/sec_cam";
     VIDEO_PATH := "/home/pi/sec_cam/videos";
     PICTURES_PATH := "/home/pi/sec_cam/pictures";
     THUMBS_PATH := "/home/pi/sec_cam/thumbs";
     CIRCULAR_BUFFER_SECONDS := 20;
     POST_MOTION_SECONDS := 12;
     CIRCULAR_BUFFER_MAX_CHUNKS := 1000;
     CIRCULAR_BUFFER_MAX_BYTES := 50 * 1024 * 1024;
     VIDEO_RESOLUTION := (1280, 720);
     VIDEO_FRAMERATE := 15;
     VIDEO_BITRATE := 3000000;
     MOTION_THRESHOLD := 60;
     MOTION_SENSITIVITY := 50;
     MOTION_COOLDOWN_SECONDS := 65;
     POST_MOTION_BUFFER_FILL_PERCENT := None;
     POST_MOTION_TIMEOUT_SECONDS := None |}.

Inductive warning : Type :=
| NonStandardResolution
| HighFramerate
| LowBufferCapacity
| HighBufferCapacity
| BufferMemoryVeryHigh.

Definition standard_resolution (r : Z * Z) : bool :=
  bool_decide (r ∈ [(1920, 1080); (1280, 720); (640, 480)]).

(** [validate_config]: the printed warnings, or the [ValueError]. *)
Definition validate_config (c : Config) : result (list warning) :=
  if MOTION_COOLDOWN_SECONDS c <? 17 then Raise ValueError
  else
    Ok ((if standard_resolution (VIDEO_RESOLUTION c) then [] else [NonStandardResolution])
        ++ (if 30 <? VIDEO_FRAMERATE c then [HighFramerate] else [])
        ++ (if CIRCULAR_BUFFER_MAX_CHUNKS c <? 300 then [LowBufferCapacity] else [])
        ++ (if 3000 <? CIRCULAR_BUFFER_MAX_CHUNKS c then [HighBufferCapacity] else [])
        ++ (if 100 * 1024 * 1024 <? CIRCULAR_BUFFER_MAX_BYTES c
            then [BufferMemoryVeryHigh] else [])).

End Config.

(** ** The event store ([database.py]) *)

Record EventRow : Type := mkRow {
  timestamp : Z;
  motion_score : Z;
  image_a_path : string;
  image_b_path : option string;
  thumbnail_path : option string;
  video_path : option string;
  duration_seconds : Z;          (* DEFAULT 30 *)
  created_at : Z;
  updated_at : Z
}.

(** The [events] table keyed by [id], and the largest row id handed out so
    far (the AUTOINCREMENT sequence). *)
Record EventDatabase : Type := mkDb {
  events : gmap Z EventRow;
  sequence : Z;
  streaming : Z
}.

(** ** The motion signal ([motion_event.py]) *)

Record MotionEvent : Type := mkSignal {
  _event : bool;                 (* the threading.Event flag *)
  _data : option (Z * Z)         (* event_id, timestamp; [{}] at first *)
}.

(** A call of [MotionEvent.set] as the history records it: the clock at the
    call, the payload, and the row the store held for that id at the call. *)
Record set_call : Type := mkSetCall {
  set_at : Z;
  set_event_id : Z;
  set_timestamp : Z;
  row_at_set : option EventRow
}.

(** ** The event processor object ([event_processor.py]) *)

Record EventProcessor : Type := mkProcessor {
  processor_paused : bool;       (* [_paused], False until pause() is called *)
  waiting : bool                 (* the thread is inside [wait_and_get] *)
}.

(** ** Files and the log *)

Record file : Type := mkFile {
  content : list Byte.byte;
  synced : bool                  (* everything written has reached the disk *)
}.

Inductive io_event : Type :=
| EvOpen (path : string)
| EvWrite (path : string) (chunk_data : list Byte.byte)
| EvFlush (path : string)
| EvFsync (path : string)
| EvClose (path : string)
| EvSync
| EvTouch (path : string)
| EvStill (path : string)
| EvThumbnail (path : string).

Inductive level : Type := INFO | WARNING | ERROR.

(** The warnings and errors of the modelled functions (the [INFO] lines are
    left out). *)
Inductive log_message : Type :=
| BufferOnlyPartlyFull
| NoKeyframeInBuffer
| NoKeyframeInPostMotionBuffer
| RefillTimeout
| DumpingWhateverWeHave
| ErrorInSaveEventWithContinuation (e : exn)
| ErrorSavingH264Video (e : exn)
| KeepingIncompleteH264File (path : string)
| ErrorSavingH264Buffer (e : exn)
| ErrorCapturingColorStill (e : exn)
| ErrorCreatingThumbnail (e : exn)
| ErrorHandlingMotionEvent (e : exn)
| ErrorProcessingEvent (event_id : Z) (e : exn)
| ErrorInDetectionLoop (e : exn)
| ErrorInProcessingLoop (e : exn).

(** ** The world of the workers

    The state that the modelled threads share, the clock, and the
    environment: how much time passes before each clock reading, which
    operations fail, what the encoder and the capture thread deliver. *)
Record World : Type := mkWorld {
  now : Z;                                   (* wall clock, milliseconds *)
  delays : list N;                           (* time passing before each reading *)
  faults : list bool;                        (* outcome of each fallible operation *)
  encoder : list (list (pyobj * pyobj));     (* chunks delivered between looks at the ring *)
  camera : list (list ndarray);              (* frames captured between looks at the pair *)
  fs : gmap string file;
  io_trace : list io_event;                  (* oldest first *)
  logs : list (level * log_message);         (* oldest first *)
  ring : Ring.BoundedCircularOutput;
  frames : FramePair.CircularBuffer;
  db : EventDatabase;
  motion_event : MotionEvent;
  set_calls : list set_call;                 (* newest first *)
  detector : Motion.MotionDetector;
  processor : EventProcessor
}.

Definition with_clock (t : Z) (ds : list N) (w : World) : World :=
  mkWorld t ds (faults w) (encoder w) (camera w) (fs w) (io_trace w) (logs w)
    (ring w) (frames w) (db w) (motion_event w) (set_calls w) (detector w) (processor w).

Definition with_faults (fl : list bool) (w : World) : World :=
  mkWorld (now w) (delays w) fl (encoder w) (camera w) (fs w) (io_trace w)
    (logs w) (ring w) (frames w) (db w) (motion_event w) (set_calls w)
    (detector w) (processor w).

Definition with_ring (en : list (list (pyobj * pyobj)))
  (r : Ring.BoundedCircularOutput) (w : World) : World :=
  mkWorld (now w) (delays w) (faults w) en (camera w) (fs w) (io_trace w)
    (logs w) r (frames w) (db w) (motion_event w) (set_calls w) (detector w) (processor w).

Definition with_frames (cam : list (list ndarray))
  (b : FramePair.CircularBuffer) (w : World) : World :=
  mkWorld (now w) (delays w) (faults w) (encoder w) cam (fs w) (io_trace w)
    (logs w) (ring w) b (db w) (motion_event w) (set_calls w) (detector w) (processor w).

Definition with_fs (f : gmap string file) (ev : io_event) (w : World) : World :=
  mkWorld (now w) (delays w) (faults w) (encoder w) (camera w) f
    (io_trace w ++ [ev]) (logs w) (ring w) (frames w) (db w) (motion_event w)
    (set_calls w) (detector w) (processor w).

Definition with_log (l : level) (m : log_message) (w : World) : World :=
  mkWorld (now w) (delays w) (faults w) (encoder w) (camera w) (fs w)
    (io_trace w) (logs w ++ [(l, m)]) (ring w) (frames w) (db w)
    (motion_event w) (set_calls w) (detector w) (processor w).

Definition with_db (d : EventDatabase) (w : World) : World :=
  mkWorld (now w) (delays w) (faults w) (encoder w) (camera w) (fs w)
    (io_trace w) (logs w) (ring w) (frames w) d (motion_event w) (set_calls w)
    (detector w) (processor w).

Definition with_signal (s : MotionEvent) (calls : list set_call) (w : World)
  : World :=
  mkWorld (now w) (delays w) (faults w) (encoder w) (camera w) (fs w)
    (io_trace w) (logs w) (ring w) (frames w) (db w) s calls (detector w) (processor w).

Definition with_detector (d : Motion.MotionDetector) (w : World) : World :=
  mkWorld (now w) (delays w) (faults w) (encoder w) (camera w) (fs w)
    (io_trace w) (logs w) (ring w) (frames w) (db w) (motion_event w)
    (set_calls w) d (processor w).

Definition with_processor (p : EventProcessor) (w : World) : World :=
  mkWorld (now w) (delays w) (faults w) (encoder w) (camera w) (fs w)
    (io_trace w) (logs w) (ring w) (frames w) (db w) (motion_event w)
    (set_calls w) (detector w) p.

(** ** Computations over the world that can raise *)

Definition M (A : Type) : Type := World -> result A * World.

Definition ret {A} (a : A) : M A := fun w => (Ok a, w).

Definition bind {A B} (m : M A) (k : A -> M B) : M B := fun w =>
  match m w with
  | (Ok a, w') => k a w'
  | (Raise e, w') => (Raise e, w')
  end.

Notation "x <- m ;; k" := (bind m (fun x => k))
  (at level 100, m at next level, right associativity).

Definition raise {A} (e : exn) : M A := fun w => (Raise e, w).

(** [try: body except Exception as e: handler(e)]. *)
Definition try_except {A} (body : M A) (handler : exn -> M A) : M A := fun w =>
  match body w with
  | (Ok a, w') => (Ok a, w')
  | (Raise e, w') => handler e w'
  end.

(** [try: body finally: cleanup]. *)
Definition try_finally {A} (body : M A) (cleanup : M unit) : M A := fun w =>
  match body w with
  | (r, w') =>
      match cleanup w' with
      | (Ok _, w'') => (r, w'')
      | (Raise e, w'') => (Raise e, w'')
      end
  end.

Definition get {A} (f : World -> A) : M A := fun w => (Ok (f w), w).
Definition modify (f : World -> World) : M unit := fun w => (Ok tt, f w).

(** A fallible operation asks the environment whether it fails. *)
Definition fault (e : exn) : M unit := fun w =>
  match faults w with
  | true :: rest => (Raise e, with_faults rest w)
  | false :: rest => (Ok tt, with_faults rest w)
  | [] => (Ok tt, w)
  end.

(** The clock does not go back: a reading is the previous one plus the time
    that has passed. *)
Definition pass_time (extra : Z) (w : World) : World :=
  match delays w with
  | d :: rest => with_clock (now w + extra + Z.of_N d) rest w
  | [] => with_clock (now w + extra) [] w
  end.

(** [time.time()] and [datetime.now()]. *)
Definition clock : M Z := fun w =>
  let w' := pass_time 0 w in (Ok (now w'), w').

(** [time.sleep]: at least the requested time passes. *)
Definition sleep (ms : Z) : M unit := fun w => (Ok tt, pass_time (Z.max 0 ms) w).

Definition log (l : level) (m : log_message) : M unit := modify (with_log l m).

(** The encoder thread runs between two looks at the ring. *)
Definition encoder_runs : M unit := fun w =>
  match encoder w with
  | batch :: rest => (Ok tt, with_ring rest (Ring.run_appends (ring w) batch) w)
  | [] => (Ok tt, w)
  end.

(** The capture thread runs between two looks at the frame pair. *)
Definition capture_runs : M unit := fun w =>
  match camera w with
  | batch :: rest => (Ok tt, with_frames rest (FramePair.pushes (frames w) batch) w)
  | [] => (Ok tt, w)
  end.

(** ** File operations *)

Definition set_synced (b : bool) (f : file) : file := mkFile (content f) b.

Definition append_content (d : list Byte.byte) (f : file) : file :=
  mkFile (content f ++ d) false.

(** [open(path, "wb")]: the file is created or truncated. *)
Definition open_wb (path : string) : M unit :=
  _ <- fault OSError;;
  modify (fun w => with_fs (<[path := mkFile [] false]> (fs w)) (EvOpen path) w).

(** [f.write(data)]. *)
Definition f_write (path : string) (d : list Byte.byte) : M unit :=
  _ <- fault OSError;;
  modify (fun w => with_fs (alter (append_content d) path (fs w)) (EvWrite path d) w).

(** [f.flush()]. *)
Definition f_flush (path : string) : M unit :=
  _ <- fault OSError;;
  modify (fun w => with_fs (fs w) (EvFlush path) w).

(** [os.fsync(f.fileno())]. *)
Definition os_fsync (path : string) : M unit :=
  _ <- fault OSError;;
  modify (fun w => with_fs (alter (set_synced true) path (fs w)) (EvFsync path) w).

Definition f_close (path : string) : M unit :=
  modify (fun w => with_fs (fs w) (EvClose path) w).

(** [with open(path, "wb") as f: body]. *)
Definition with_open {A} (path : string) (body : M A) : M A :=
  _ <- open_wb path;;
  try_finally body (f_close path).

(** [os.path.exists]. *)
Definition os_path_exists (path : string) : M bool :=
  get (fun w => bool_decide (is_Some (fs w !! path))).

(** [os.path.getsize]. *)
Definition os_path_getsize (path : string) : M Z := fun w =>
  match fs w !! path with
  | Some f => (Ok (py_len (content f)), w)
  | None => (Raise OSError, w)
  end.

(** [os.sync()]: every file reaches the disk. *)
Definition os_sync : M unit :=
  modify (fun w => with_fs (set_synced true <$> fs w) EvSync w).

(** [Path(path).touch(exist_ok=True)]. *)
Definition touch (path : string) : M unit :=
  _ <- fault OSError;;
  modify (fun w =>
    with_fs (match fs w !! path with
             | Some _ => fs w
             | None => <[path := mkFile [] false]> (fs w)
             end) (EvTouch path) w).

(** ** Strings *)

(** [s.replace(old, new)] for a non-empty [old]: the occurrences are replaced
    from left to right; [skip] counts the characters of a match that are still
    to be passed over. *)
Fixpoint replace_from (old new : string) (skip : nat) (s : string) : string :=
  match s with
  | EmptyString => EmptyString
  | String c rest =>
      match skip with
      | S k => replace_from old new k rest
      | O =>
          if String.prefix old s
          then new +:+ replace_from old new (String.length old - 1) rest
          else String c (replace_from old new 0 rest)
      end
  end.

Definition str_replace (old new s : string) : string := replace_from old new 0 s.

(** ** Numbers *)

(** [int(x)] of a fraction: truncation towards zero. *)
Definition py_int (x : Q) : Z := Z.quot (Qnum x) (Zpos (Qden x)).

Definition Qlt_bool (x y : Q) : bool := negb (Qle_bool y x).

(** ** The video save protocol ([circular_buffer.py]) *)

Module Save.
Import Config.

(** A ring entry as the encoder callback stores it: the pair
    [(frame, keyframe)] of a [bytes] object and a [bool]. *)
Definition chunk_wf (c : pyobj) : Prop :=
  exists d k, c = PyTuple [PyBytes d; PyBool k].

Definition chunk_is_keyframe (c : pyobj) : bool :=
  match c with
  | PyTuple (_ :: k :: _) => truthy k
  | _ => false
  end.

Definition chunk_bytes (c : pyobj) : list Byte.byte :=
  match c with
  | PyTuple (PyBytes d :: _) => d
  | _ => []
  end.

(** The entries of a snapshot from its first keyframe on. *)
Fixpoint from_first_keyframe (snapshot : list pyobj) : list pyobj :=
  match snapshot with
  | [] => []
  | c :: rest =>
      if chunk_is_keyframe c then c :: rest else from_first_keyframe rest
  end.

(** The byte strings that a sequence of file events writes, in order. *)
Definition written_data (evs : list io_event) : list (list Byte.byte) :=
  omap (fun e => match e with EvWrite _ d => Some d | _ => None end) evs.

(** One dump loop of [save_event_with_continuation] (phase 1 and phase 4 run
    the same loop): entries that are not tuples of at least two items are
    passed over, entries before the first keyframe are skipped, the data of
    the others is written when it is a [bytes] object, with a flush after
    every hundredth write.  Returns [found_keyframe] and the chunk count. *)
Fixpoint dump_chunks (path : string) (snapshot : list pyobj)
  (found_keyframe : bool) (chunk_count : Z) : M (bool * Z) :=
  match snapshot with
  | [] => ret (found_keyframe, chunk_count)
  | chunk :: rest =>
      match chunk with
      | PyTuple items =>
          if 2 <=? py_len items then
            let chunk_data := nth 0 items PyNone in
            let is_keyframe :=
              if 1 <? py_len items then nth 1 items PyNone else PyBool false in
            if negb found_keyframe && negb (truthy is_keyframe)
            then dump_chunks path rest found_keyframe chunk_count
            else
              match chunk_data with
              | PyBytes d =>
                  _ <- f_write path d;;
                  let chunk_count := chunk_count + 1 in
                  _ <- (if chunk_count mod 100 =? 0 then f_flush path else ret tt);;
                  dump_chunks path rest true chunk_count
              | _ => dump_chunks path rest true chunk_count
              end
          else dump_chunks path rest found_keyframe chunk_count
      | _ => dump_chunks path rest found_keyframe chunk_count
      end
  end.

(** [tuple(self.circular_output._circular)], after the encoder has run. *)
Definition ring_snapshot : M (list pyobj) :=
  _ <- encoder_runs;;
  get (fun w => Ring._circular (ring w)).

(** [len(self.circular_output._circular)], after the encoder has run. *)
Definition ring_length : M Z :=
  _ <- encoder_runs;;
  get (fun w => Ring.ring_len (ring w)).

Definition ring_clear : M unit :=
  modify (fun w => with_ring (encoder w) (Ring.clear (ring w)) w).

(** A dump phase: the snapshot, the loop, the warning when no keyframe was
    found.  Phases 1 and 4 are this code with their own warning. *)
Definition dump_phase (path : string) (no_keyframe : log_message) : M Z :=
  chunks_snapshot <- ring_snapshot;;
  dumped <- dump_chunks path chunks_snapshot false 0;;
  let '(found_keyframe, chunk_count) := dumped in
  _ <- (if negb found_keyframe then log WARNING no_keyframe else ret tt);;
  ret chunk_count.

(** Phase 3: the polling loop, with its [else] branch for the timeout.  The
    bound on the iterations belongs to the model, not to the source;
    [refill_bound] is large enough for [LoopBound] never to be raised. *)
Fixpoint refill_wait (bound : nat) (target_chunks timeout_seconds : Z)
  (start_time last_log_time : Z) : M unit :=
  t <- clock;;
  if t - start_time <? seconds timeout_seconds then
    match bound with
    | O => raise LoopBound
    | S bound =>
        current_size <- ring_length;;
        t <- clock;;
        last_log_time <-
          (if seconds 5 <=? t - last_log_time then
             _ <- clock;;
             _ <- (if target_chunks =? 0 then raise ZeroDivisionError else ret tt);;
             clock
           else ret last_log_time);;
        if target_chunks <=? current_size then
          _ <- clock;;
          ret tt
        else
          _ <- sleep 500;;
          refill_wait bound target_chunks timeout_seconds start_time last_log_time
    end
  else
    _ <- clock;;
    current_size <- ring_length;;
    _ <- (if target_chunks =? 0 then raise ZeroDivisionError else ret tt);;
    _ <- log WARNING RefillTimeout;;
    log WARNING DumpingWhateverWeHave.

(** Iterations that a timeout allows: every iteration sleeps half a second. *)
Definition refill_bound (timeout_seconds : Z) : nat :=
  Z.to_nat (2 * timeout_seconds) + 1.

(** The estimate of the duration: [size_bits / VIDEO_BITRATE]. *)
Definition estimated_duration (cfg : Config) (size : Z) : Q :=
  let size_mb := (inject_Z size / inject_Z (1024 * 1024))%Q in
  let size_bits := (size_mb * 8 * 1024 * 1024)%Q in
  (size_bits / inject_Z (VIDEO_BITRATE cfg))%Q.

(** [save_event_with_continuation]. *)
Definition save_event_with_continuation (cfg : Config) (filepath_h264 : string)
  (target_fill_percent : Q) (timeout_seconds : Z) : M Q :=
  let max_chunks := CIRCULAR_BUFFER_MAX_CHUNKS cfg in
  let target_chunks := py_int (inject_Z max_chunks * target_fill_percent) in
  try_except
    (current_chunks <- ring_length;;
     _ <- (if max_chunks =? 0 then raise ZeroDivisionError else ret tt);;
     _ <- (if Qlt_bool (inject_Z current_chunks) (inject_Z max_chunks * (3 # 10))
          then log WARNING BufferOnlyPartlyFull else ret tt);;
     counts <-
       with_open filepath_h264
         ((* Phase 1: dump the pre-motion buffer *)
          pre_chunk_count <- dump_phase filepath_h264 NoKeyframeInBuffer;;
          _ <- f_flush filepath_h264;;
          (* Phase 2: clear the buffer *)
          _ <- ring_clear;;
          (* Phase 3: wait for the buffer to refill *)
          start_time <- clock;;
          _ <- refill_wait (refill_bound timeout_seconds) target_chunks
                timeout_seconds start_time start_time;;
          (* Phase 4: dump the post-motion buffer *)
          post_chunk_count <-
            dump_phase filepath_h264 NoKeyframeInPostMotionBuffer;;
          _ <- f_flush filepath_h264;;
          _ <- os_fsync filepath_h264;;
          ret (pre_chunk_count, post_chunk_count));;
     let '(pre_chunk_count, post_chunk_count) := counts in
     (* Verify and report *)
     present <- os_path_exists filepath_h264;;
     if present then
       size <- os_path_getsize filepath_h264;;
       let total_chunks := pre_chunk_count + post_chunk_count in
       _ <- (if VIDEO_BITRATE cfg =? 0 then raise ZeroDivisionError else ret tt);;
       (* the report divides by total_chunks *)
       _ <- (if total_chunks =? 0 then raise ZeroDivisionError else ret tt);;
       ret (estimated_duration cfg size)
     else raise IOError)
    (fun e =>
       _ <- log ERROR (ErrorInSaveEventWithContinuation e);;
       raise e).

(** One write of [save_h264_buffer]; the name [os] is not bound in that
    function, so the [os.fsync] after every fiftieth chunk raises. *)
Fixpoint buffer_chunks (path : string) (chunks : list pyobj) (chunk_count : Z)
  : M Z :=
  match chunks with
  | [] => ret chunk_count
  | chunk :: rest =>
      match chunk with
      | PyTuple (PyBytes d :: _) =>
          _ <- f_write path d;;
          let chunk_count := chunk_count + 1 in
          _ <- (if chunk_count mod 50 =? 0
               then (_ <- f_flush path;; raise (NameError "os"))
               else ret tt);;
          buffer_chunks path rest chunk_count
      | _ => buffer_chunks path rest chunk_count
      end
  end.

(** [save_h264_buffer]. *)
Definition save_h264_buffer (filepath : string) : M unit :=
  try_except
    (_ <- with_open filepath
           (chunks <- ring_snapshot;;
            buffer_chunks filepath chunks 0);;
     ret tt)
    (fun e =>
       _ <- log ERROR (ErrorSavingH264Buffer e);;
       raise e).

(** [from config import NAME] for a name that may be missing. *)
Definition import_name {A} (name : string) (value : option A) : M A :=
  match value with
  | Some v => ret v
  | None => raise (ImportError name)
  end.

(** [save_h264_as_mp4]. *)
Definition save_h264_as_mp4 (cfg : Config) (filepath_mp4 : string)
  (use_continuation : bool) (target_fill_percent : option Q)
  (timeout_seconds : option Z) : M (option Q) :=
  fill_percent <- import_name "POST_MOTION_BUFFER_FILL_PERCENT"
                   (POST_MOTION_BUFFER_FILL_PERCENT cfg);;
  timeout <- import_name "POST_MOTION_TIMEOUT_SECONDS"
              (POST_MOTION_TIMEOUT_SECONDS cfg);;
  let filepath_h264 := str_replace ".mp4" ".h264" filepath_mp4 in
  let pending_marker := filepath_h264 +:+ ".pending" in
  let target_fill_percent := default fill_percent target_fill_percent in
  let timeout_seconds := default timeout timeout_seconds in
  try_except
    ((* Step 1: write the H.264 file *)
     estimated_duration <-
       (if use_continuation
        then d <- save_event_with_continuation cfg filepath_h264
                   target_fill_percent timeout_seconds;;
             ret (Some d)
        else _ <- save_h264_buffer filepath_h264;;
             ret None);;
     (* Step 2: the file must be there *)
     present <- os_path_exists filepath_h264;;
     _ <- (if present then (_ <- os_path_getsize filepath_h264;; ret tt)
          else raise (RuntimeError IOError));;
     _ <- os_sync;;
     (* Step 3: the marker *)
     _ <- touch pending_marker;;
     ret estimated_duration)
    (fun e =>
       _ <- log ERROR (ErrorSavingH264Video e);;
       present <- os_path_exists filepath_h264;;
       _ <- (if present then log WARNING (KeepingIncompleteH264File filepath_h264)
            else ret tt);;
       raise (RuntimeError e)).

End Save.

(** ** Vocabulary for the properties of the save protocol *)

(** The events of a dump loop on one file. *)
Definition write_or_flush (path : string) (e : io_event) : Prop :=
  match e with
  | EvWrite p _ | EvFlush p => p = path
  | _ => False
  end.

(** The events of writing one file, from [open] to [close]. *)
Definition on_file (path : string) (e : io_event) : Prop :=
  match e with
  | EvOpen p | EvWrite p _ | EvFlush p | EvFsync p | EvClose p => p = path
  | _ => False
  end.

(** [w'] differs from [w] at most in the files, the file events and the
    faults still to come. *)
Definition io_only (w w' : World) : Prop :=
  exists fl f tr,
    w' = mkWorld (now w) (delays w) fl (encoder w) (camera w) f tr (logs w)
           (ring w) (frames w) (db w) (motion_event w) (set_calls w)
           (detector w) (processor w).

(** [w'] comes from [w] by work on the file [path] alone: the new events are
    events of that file, the other files are as they were, and the file is
    not removed. *)
Definition file_job (path : string) (w w' : World) : Prop :=
  (exists evs, io_trace w' = io_trace w ++ evs /\ Forall (on_file path) evs) /\
  (forall q, q <> path -> fs w' !! q = fs w !! q) /\
  (is_Some (fs w !! path) -> is_Some (fs w' !! path)).

(** The events of a whole save: work on the video file, and [os.sync]. *)
Definition save_event (path : string) (e : io_event) : Prop :=
  on_file path e \/ e = EvSync.

(** [w'] comes from [w] by a save that has not reached its marker: only
    events of the video file and [os.sync], and no file other than the video
    file is created. *)
Definition save_job (path : string) (w w' : World) : Prop :=
  (exists evs, io_trace w' = io_trace w ++ evs /\ Forall (save_event path) evs) /\
  (forall q, q <> path -> fs w !! q = None -> fs w' !! q = None).

(** ** Store operations ([database.py])

    Every method opens a connection first (outside its [try]); the statement
    itself can fail too.  [add_new_event] re-raises that failure, the
    [save_*] methods print it and return. *)

Module Store.

Definition get_connection : M unit := fault Sqlite3Error.

Definition update_row (f : EventRow -> EventRow) (event_id : Z) : M unit :=
  modify (fun w =>
    with_db (mkDb (alter f event_id (events (db w))) (sequence (db w))
               (streaming (db w))) w).

(** [add_new_event]: the new row gets the next id of the sequence. *)
Definition add_new_event (timestamp0 motion_score0 : Z) (image_a_path0 : string)
  : M Z :=
  _ <- get_connection;;
  now0 <- clock;;
  _ <- fault Sqlite3Error;;
  event_id <- get (fun w => sequence (db w) + 1);;
  _ <- modify (fun w =>
         with_db (mkDb (<[event_id :=
                          {| timestamp := timestamp0;
                             motion_score := motion_score0;
                             image_a_path := image_a_path0;
                             image_b_path := None;
                             thumbnail_path := None;
                             video_path := None;
                             duration_seconds := 30;
                             created_at := now0;
                             updated_at := now0 |}]> (events (db w)))
                    event_id (streaming (db w))) w);;
  ret event_id.

Definition set_image_b (p : string) (t : Z) (r : EventRow) : EventRow :=
  mkRow (timestamp r) (motion_score r) (image_a_path r) (Some p)
    (thumbnail_path r) (video_path r) (duration_seconds r) (created_at r) t.

Definition set_thumbnail (p : string) (t : Z) (r : EventRow) : EventRow :=
  mkRow (timestamp r) (motion_score r) (image_a_path r) (image_b_path r)
    (Some p) (video_path r) (duration_seconds r) (created_at r) t.

Definition set_video (p : string) (duration : option Z) (t : Z) (r : EventRow)
  : EventRow :=
  mkRow (timestamp r) (motion_score r) (image_a_path r) (image_b_path r)
    (thumbnail_path r) (Some p) (default (duration_seconds r) duration)
    (created_at r) t.

Definition save_picture_b (event_id : Z) (image_b_path0 : string) : M unit :=
  _ <- get_connection;;
  try_except
    (t <- clock;;
     _ <- fault Sqlite3Error;;
     update_row (set_image_b image_b_path0 t) event_id)
    (fun _ => ret tt).

Definition save_thumbnail (event_id : Z) (thumbnail_path0 : string) : M unit :=
  _ <- get_connection;;
  try_except
    (t <- clock;;
     _ <- fault Sqlite3Error;;
     update_row (set_thumbnail thumbnail_path0 t) event_id)
    (fun _ => ret tt).

(** [round(x)]: to the nearest integer, ties to the even one. *)
Definition py_round (x : Q) : Z :=
  let n := Qnum x in
  let d := Zpos (Qden x) in
  let q := n / d in
  let r2 := 2 * (n mod d) in
  if r2 <? d then q
  else if d <? r2 then q + 1
  else if Z.even q then q else q + 1.

(** [save_video(event_id, video_path, duration_seconds=None)]. *)
Definition save_video (event_id : Z) (video_path0 : string)
  (duration_seconds0 : option Q) : M unit :=
  _ <- get_connection;;
  try_except
    (t <- clock;;
     _ <- fault Sqlite3Error;;
     update_row (set_video video_path0 (py_round <$> duration_seconds0) t) event_id)
    (fun _ => ret tt).

End Store.

(** ** The signal operations ([motion_event.py]) *)

Module Signal.

(** [set]: the payload is stored and the flag raised.  The history of calls
    notes the clock and the row of the store at this moment. *)
Definition set (event_id timestamp0 : Z) : M unit :=
  modify (fun w =>
    with_signal {| _event := true; _data := Some (event_id, timestamp0) |}
      ({| set_at := now w; set_event_id := event_id;
          set_timestamp := timestamp0;
          row_at_set := events (db w) !! event_id |} :: set_calls w) w).

(** [wait_and_get] when the flag is up: the payload is copied and the flag
    cleared.  With the flag down the call blocks, which is [None] here. *)
Definition wait_and_get : M (option (Z * Z)) := fun w =>
  if _event (motion_event w)
  then (Ok (_data (motion_event w)),
        with_signal {| _event := false; _data := _data (motion_event w) |}
          (set_calls w) w)
  else (Ok None, w).

End Signal.

(** ** Still pictures ([capture_color_still], [_create_thumbnail]) *)

Module Still.

(** A fresh capture from the camera saved as a JPEG; an error is logged and
    raised again. *)
Definition capture_color_still (filepath : string) : M unit :=
  try_except
    (_ <- fault CameraError;;
     _ <- fault OSError;;
     modify (fun w => with_fs (<[filepath := mkFile [] false]> (fs w))
                        (EvStill filepath) w))
    (fun e => _ <- log ERROR (ErrorCapturingColorStill e);; raise e).

Definition _create_thumbnail (source_image_path thumbnail_path0 : string)
  : M unit :=
  try_except
    (present <- os_path_exists source_image_path;;
     _ <- (if present then ret tt else raise OSError);;
     _ <- fault OSError;;
     modify (fun w => with_fs (<[thumbnail_path0 := mkFile [] false]> (fs w))
                        (EvThumbnail thumbnail_path0) w))
    (fun e => _ <- log ERROR (ErrorCreatingThumbnail e);; raise e).

End Still.

(** ** The motion detector worker ([motion_detector.py]) *)

Module Detector.
Import Config.

Section Worker.

(** Functions of the libraries: the downscaling of a frame and the
    formatting of a timestamp as [%Y.%m.%d--%H.%M.%S]. *)
Variable resize : ndarray -> ndarray.
Variable strftime : Z -> string.
Variable cfg : Config.

(** [self.buffer.get_frames_for_detection()], after the capture thread has
    run. *)
Definition get_frames_for_detection : M (option ndarray * option ndarray) :=
  _ <- capture_runs;;
  get (fun w => FramePair.get_frames_for_detection resize (frames w)).

(** [self._in_cooldown()]: the clock is read only after a first detection. *)
Definition _in_cooldown : M bool :=
  d <- get detector;;
  if Motion.last_detection_time d =? 0 then ret false
  else
    t <- clock;;
    ret (Motion._in_cooldown d t).

(** The [try] block of [_handle_motion_event]: the timestamp, Picture A, the
    row of the store, the signal, and then the start of the cooldown. *)
Definition handle_motion_steps (current_frame : ndarray) (motion_score0 : Z)
  : M unit :=
  timestamp0 <- clock;;
  let timestamp_str := strftime timestamp0 in
  let image_a_path0 := PICTURES_PATH cfg +:+ "/" +:+ timestamp_str +:+ "_a.jpg" in
  _ <- Still.capture_color_still image_a_path0;;
  event_id <- Store.add_new_event timestamp0 motion_score0 image_a_path0;;
  _ <- Signal.set event_id timestamp0;;
  t <- clock;;
  modify (fun w => with_detector (Motion.set_last_detection_time t (detector w)) w).

(** [_handle_motion_event]. *)
Definition _handle_motion_event (current_frame : ndarray) (motion_score0 : Z)
  : M unit :=
  try_except
    (handle_motion_steps current_frame motion_score0)
    (fun e =>
       (* Don't enter cooldown on error - allow retry *)
       log ERROR (ErrorHandlingMotionEvent e)).

(** The outcome of the debug image block of [_compare_frames]. *)
Definition debug_image (d : Motion.MotionDetector) : M (result unit) :=
  if Motion.debug_mode d
  then try_except (_ <- fault ValueError;; ret (Ok tt)) (fun e => ret (Raise e))
  else ret (Ok tt).

Definition lift {A} (r : result A) : M A :=
  match r with
  | Ok a => ret a
  | Raise e => raise e
  end.

(** One iteration of [_detection_loop]. *)
Definition detection_iteration : M unit :=
  try_except
    (current_time <- clock;;
     d <- get detector;;
     if Motion._paused d then sleep 500
     else
       cooling <- _in_cooldown;;
       if cooling then sleep 500
       else
         pair <- get_frames_for_detection;;
         match pair with
         | (Some previous_frame, Some current_frame) =>
             dbg <- debug_image d;;
             compared <- lift (Motion._compare_frames d dbg previous_frame current_frame);;
             let '(motion_detected, changed_pixels) := compared in
             _ <- (if motion_detected
                   then _handle_motion_event current_frame changed_pixels
                   else ret tt);;
             sleep 500
         | _ => sleep 500
         end)
    (fun e =>
       _ <- log ERROR (ErrorInDetectionLoop e);;
       sleep 1000).

(** [pause] and [resume], called from the watchdog and the stream server. *)
Definition pause : M unit :=
  modify (fun w => with_detector (Motion.pause (detector w)) w).

Definition resume : M unit :=
  modify (fun w => with_detector (Motion.resume (detector w)) w).

End Worker.
End Detector.

(** ** The event processor worker ([event_processor.py]) *)

Module Processor.
Import Config.

(** *** Calls with keyword arguments *)

Inductive argument : Type :=
| ArgStr (s : string)
| ArgBool (b : bool)
| ArgInt (n : Z)
| ArgFrac (q : Q).

(** The binding of the arguments of a call to the parameters of a function
    without [**kwargs]: the positional arguments take the first parameters,
    every keyword has to name a parameter that is still free. *)
Fixpoint bind_keywords (parameters : list string)
  (bound : list (string * argument)) (keywords : list (string * argument))
  : result (list (string * argument)) :=
  match keywords with
  | [] => Ok bound
  | (name, value) :: rest =>
      if bool_decide (name ∈ parameters) && negb (bool_decide (name ∈ bound.*1))
      then bind_keywords parameters (bound ++ [(name, value)]) rest
      else Raise (TypeError name)
  end.

Definition bind_arguments (parameters : list string)
  (positional : list argument) (keywords : list (string * argument))
  : result (list (string * argument)) :=
  if (length parameters <? length positional)%nat then Raise (TypeError "")
  else bind_keywords parameters (zip parameters positional) keywords.

Definition lookup_argument (name : string) (bound : list (string * argument))
  : option argument :=
  snd <$> List.find (fun b => String.eqb b.1 name) bound.

(** [def save_h264_as_mp4(self, filepath_mp4, use_continuation=True,
        target_fill_percent=None, timeout_seconds=None)]. *)
Definition save_h264_as_mp4_parameters : list string :=
  ["filepath_mp4"; "use_continuation"; "target_fill_percent"; "timeout_seconds"].

(** A call [self.buffer.save_h264_as_mp4(...)]: the arguments are bound, then
    the body runs. *)
Definition call_save_h264_as_mp4 (cfg : Config) (positional : list argument)
  (keywords : list (string * argument)) : M (option Q) :=
  bound <- Detector.lift (bind_arguments save_h264_as_mp4_parameters positional keywords);;
  match lookup_argument "filepath_mp4" bound with
  | Some (ArgStr filepath_mp4) =>
      let use_continuation :=
        match lookup_argument "use_continuation" bound with
        | Some (ArgBool b) => b
        | _ => true
        end in
      let target_fill_percent :=
        match lookup_argument "target_fill_percent" bound with
        | Some (ArgFrac q) => Some q
        | _ => None
        end in
      let timeout_seconds :=
        match lookup_argument "timeout_seconds" bound with
        | Some (ArgInt n) => Some n
        | _ => None
        end in
      Save.save_h264_as_mp4 cfg filepath_mp4 use_continuation
        target_fill_percent timeout_seconds
  | _ => raise (TypeError "filepath_mp4")
  end.

Section Worker.

Variable strftime : Z -> string.
Variable cfg : Config.

(** [_process_event]. *)
Definition _process_event (event_id : Z) (timestamp_str : string) : M unit :=
  start_time <- clock;;
  try_except
    ((* Step 1: wait 4 seconds *)
     _ <- sleep 4000;;
     (* Step 2: Picture B *)
     let image_b_path0 := PICTURES_PATH cfg +:+ "/" +:+ timestamp_str +:+ "_b.jpg" in
     _ <- Still.capture_color_still image_b_path0;;
     _ <- Store.save_picture_b event_id image_b_path0;;
     (* Step 3: thumbnail *)
     let thumbnail_path0 := THUMBS_PATH cfg +:+ "/" +:+ timestamp_str +:+ "_b.jpg" in
     _ <- Still._create_thumbnail image_b_path0 thumbnail_path0;;
     _ <- Store.save_thumbnail event_id thumbnail_path0;;
     (* Step 4: event video *)
     let video_path0 := VIDEO_PATH cfg +:+ "/" +:+ timestamp_str +:+ ".mp4" in
     _ <- call_save_h264_as_mp4 cfg [ArgStr video_path0]
            [("use_continuation", ArgBool true);
             ("continuation_seconds", ArgInt (POST_MOTION_SECONDS cfg))];;
     _ <- Store.save_video event_id video_path0 None;;
     _ <- clock;;
     ret tt)
    (fun e =>
       (* Continue anyway - partial event data is better than none *)
       log ERROR (ErrorProcessingEvent event_id e)).

Definition set_waiting (b : bool) : M unit :=
  modify (fun w => with_processor (mkProcessor (processor_paused (processor w)) b) w).

(** One step of [_processing_loop]: the pause guard and the entry into
    [wait_and_get], or, once waiting, the wake-up by a signal. *)
Definition processing_iteration : M unit :=
  try_except
    (p <- get processor;;
     if waiting p then
       event_data <- Signal.wait_and_get;;
       match event_data with
       | None => ret tt                        (* still blocked *)
       | Some (event_id, timestamp0) =>
           _ <- set_waiting false;;
           if processor_paused p then ret tt   (* stale event discarded *)
           else _process_event event_id (strftime timestamp0)
       end
     else if processor_paused p then sleep 500
     else set_waiting true)
    (fun e =>
       _ <- log ERROR (ErrorInProcessingLoop e);;
       sleep 1000).

Definition pause : M unit :=
  modify (fun w => with_processor (mkProcessor true (waiting (processor w))) w).

Definition resume : M unit :=
  modify (fun w => with_processor (mkProcessor false (waiting (processor w))) w).

End Worker.
End Processor.

(** ** The workers together

    A run of the system is a sequence of steps of its threads. *)

Module System.

Inductive action : Type :=
| DetectorIteration
| DetectorPause
| DetectorResume
| ProcessorIteration
| ProcessorPause
| ProcessorResume.

Section Run.

Variable resize : ndarray -> ndarray.
Variable strftime : Z -> string.
Variable cfg : Config.Config.

Definition step (a : action) : M unit :=
  match a with
  | DetectorIteration => Detector.detection_iteration resize strftime cfg
  | DetectorPause => Detector.pause
  | DetectorResume => Detector.resume
  | ProcessorIteration => Processor.processing_iteration strftime cfg
  | ProcessorPause => Processor.pause
  | ProcessorResume => Processor.resume
  end.

Definition run (actions : list action) (w : World) : World :=
  fold_left (fun w a => (step a w).2) actions w.

End Run.
End System.

(** ** Vocabulary for the properties of the event processor *)

(** The file events of the stills. *)
Definition still_event (e : io_event) : Prop :=
  match e with
  | EvStill _ | EvThumbnail _ => True
  | _ => False
  end.

(** [w'] comes from [w] without any work on a video: the new file events are
    those of stills, and every row of the store has the video path and the
    duration it had. *)
Definition no_video_work (w w' : World) : Prop :=
  (exists evs, io_trace w' = io_trace w ++ evs /\ Forall still_event evs) /\
  (forall id,
      video_path <$> events (db w') !! id = video_path <$> events (db w) !! id /\
      duration_seconds <$> events (db w') !! id
      = duration_seconds <$> events (db w) !! id).

(** ** Vocabulary for the properties of the detector *)

(** Successive calls of [set] (the newest first) are at least [gap] apart. *)
Definition gaps_at_least (gap : Z) (calls : list set_call) : Prop :=
  forall i later earlier,
    calls !! i = Some later -> calls !! S i = Some earlier ->
    gap <= set_at later - set_at earlier.

(** A row for the payload of a call: in the store at the call, and in the
    store now. *)
Definition call_has_row (store : gmap Z EventRow) (c : set_call) : Prop :=
  (exists row, row_at_set c = Some row /\ timestamp row = set_timestamp c) /\
  (exists row, store !! set_event_id c = Some row /\
               timestamp row = set_timestamp c).

(** The payload of a call of [set]. *)
Definition payload (c : set_call) : Z * Z := (set_event_id c, set_timestamp c).

(** What holds between the steps of the workers, for a detector whose
    cooldown is [cooldown] seconds. *)
Record system_inv (cooldown : Z) (w : World) : Prop := mkInv {
  inv_cool : Motion.cooldown_seconds (detector w) = cooldown;
  inv_clock : 0 < now w;
  inv_last : Motion.last_detection_time (detector w) <= now w;
  inv_gaps : gaps_at_least (seconds cooldown) (set_calls w);
  inv_head :
    forall c, head (set_calls w) = Some c ->
              Motion.last_detection_time (detector w) <> 0 /\
              set_at c <= Motion.last_detection_time (detector w);
  inv_data : _data (motion_event w) = payload <$> head (set_calls w);
  inv_ids :
    forall id row, events (db w) !! id = Some row -> id <= sequence (db w);
  inv_rows : Forall (call_has_row (events (db w))) (set_calls w)
}.

(** The detector was found out of cooldown at the reading [tcheck]. *)
Definition ready (cooldown tcheck : Z) (w : World) : Prop :=
  system_inv cooldown w /\
  Motion._in_cooldown (detector w) tcheck = false /\
  tcheck <= now w.

(** ** Start-up ([sec_cam_main.py]) *)

Module Main.
Import Config.

Inductive component : Type :=
| CircularBufferC
| EventProcessorC
| MotionDetectorC
| CameraWatchdogC
| MJPEGServerC.

Inductive lifecycle : Type :=
| ConfigValidated (warnings : list warning)
| DirectoriesCreated
| DatabaseOpened
| StreamingFlagReset
| Created (c : component)
| Started (c : component)
| Stopped (c : component).

(** What the machine does when asked: creating the directories, opening the
    database, starting the camera. *)
Record Environment : Type := mkEnv {
  makedirs_ok : bool;
  database_ok : bool;
  camera_ok : bool
}.

(** [initialize]: [True] when every step succeeded; any exception is logged
    and gives [False]. *)
Definition initialize (cfg : Config) (env : Environment) : bool * list lifecycle :=
  match validate_config cfg with
  | Raise _ => (false, [])
  | Ok warnings =>
      if negb (makedirs_ok env) then (false, [ConfigValidated warnings])
      else if negb (database_ok env)
      then (false, [ConfigValidated warnings; DirectoriesCreated])
      else (true, [ConfigValidated warnings; DirectoriesCreated; DatabaseOpened;
                   StreamingFlagReset; Created CircularBufferC;
                   Created MotionDetectorC; Created EventProcessorC;
                   Created MJPEGServerC])
  end.

(** [start]: the camera first, then the workers. *)
Definition start (env : Environment) : bool * list lifecycle :=
  if negb (camera_ok env) then (false, [])
  else (true, [Started CircularBufferC; Started EventProcessorC;
               Started MotionDetectorC; Started CameraWatchdogC;
               Started MJPEGServerC]).

(** [stop]: nothing happens unless [running] is set. *)
Definition stop (running : bool) : list lifecycle :=
  if running
  then [Stopped MotionDetectorC; Stopped EventProcessorC; Stopped MJPEGServerC;
        Stopped CircularBufferC]
  else [].

(** [run]: the exit code and what happened.  The main loop ends when an
    interrupt or a signal arrives; the code after it is the same whenever
    that is. *)
Definition run (cfg : Config) (env : Environment) : Z * list lifecycle :=
  let '(initialized, t1) := initialize cfg env in
  if negb initialized then (1, t1)
  else
    let '(started, t2) := start env in
    if negb started then (1, t1 ++ t2 ++ stop false)
    else (0, t1 ++ t2 ++ stop true).

Definition is_started (e : lifecycle) : bool :=
  match e with Started _ => true | _ => false end.

(** The three conditions that the spec calls an invalid configuration. *)
Definition cooldown_too_short (cfg : Config) : Prop :=
  MOTION_COOLDOWN_SECONDS cfg < 17.
Definition buffer_too_small (cfg : Config) : Prop :=
  CIRCULAR_BUFFER_MAX_CHUNKS cfg < 300.
Definition resolution_unsupported (cfg : Config) : Prop :=
  standard_resolution (VIDEO_RESOLUTION cfg) = false.

End Main.

(** ** The world at start-up *)

(** The world after the constructors have run at clock [t0], for a
    configuration and an environment. *)
Definition initial_world (cfg : Config.Config) (t0 : Z) (ds : list N)
  (fl : list bool) (en : list (list (pyobj * pyobj)))
  (cam : list (list ndarray)) : World :=
  {| now := t0; delays := ds; faults := fl; encoder := en; camera := cam;
     fs := ∅; io_trace := []; logs := [];
     ring := Ring.init (Config.CIRCULAR_BUFFER_MAX_BYTES cfg)
               (Config.CIRCULAR_BUFFER_MAX_CHUNKS cfg);
     frames := FramePair.init;
     db := {| events := ∅; sequence := 0; streaming := 0 |};
     motion_event := {| _event := false; _data := None |};
     set_calls := [];
     detector := Motion.init (Config.MOTION_THRESHOLD cfg)
                   (Config.MOTION_SENSITIVITY cfg)
                   (Config.MOTION_COOLDOWN_SECONDS cfg);
     processor := {| processor_paused := false; waiting := false |} |}.

(** ** Sample inputs

    Configurations, worlds and runs on which the definitions are evaluated. *)

Module Samples.
Import Config.

(** The shipped configuration with a detector that reports any changed
    pixel. *)
Definition sensitive_config : Config :=
  {| BASE_PATH := BASE_PATH shipped; VIDEO_PATH := VIDEO_PATH shipped;
     PICTURES_PATH := PICTURES_PATH shipped; THUMBS_PATH := THUMBS_PATH shipped;
     CIRCULAR_BUFFER_SECONDS := 20; POST_MOTION_SECONDS := 12;
     CIRCULAR_BUFFER_MAX_CHUNKS := 1000;
     CIRCULAR_BUFFER_MAX_BYTES := 50 * 1024 * 1024;
     VIDEO_RESOLUTION := (1280, 720); VIDEO_FRAMERATE := 15;
     VIDEO_BITRATE := 3000000; MOTION_THRESHOLD := 60;
     MOTION_SENSITIVITY := 0; MOTION_COOLDOWN_SECONDS := 65;
     POST_MOTION_BUFFER_FILL_PERCENT := None;
     POST_MOTION_TIMEOUT_SECONDS := None |}.

(** The shipped configuration with a ring of 100 chunks and a resolution
    outside the list of [validate_config]. *)
Definition small_buffer_config : Config :=
  {| BASE_PATH := BASE_PATH shipped; VIDEO_PATH := VIDEO_PATH shipped;
     PICTURES_PATH := PICTURES_PATH shipped; THUMBS_PATH := THUMBS_PATH shipped;
     CIRCULAR_BUFFER_SECONDS := 20; POST_MOTION_SECONDS := 12;
     CIRCULAR_BUFFER_MAX_CHUNKS := 100;
     CIRCULAR_BUFFER_MAX_BYTES := 50 * 1024 * 1024;
     VIDEO_RESOLUTION := (800, 600); VIDEO_FRAMERATE := 15;
     VIDEO_BITRATE := 3000000; MOTION_THRESHOLD := 60;
     MOTION_SENSITIVITY := 50; MOTION_COOLDOWN_SECONDS := 65;
     POST_MOTION_BUFFER_FILL_PERCENT := None;
     POST_MOTION_TIMEOUT_SECONDS := None |}.

(** The shipped configuration with a cooldown of 16 seconds. *)
Definition short_cooldown_config : Config :=
  {| BASE_PATH := BASE_PATH shipped; VIDEO_PATH := VIDEO_PATH shipped;
     PICTURES_PATH := PICTURES_PATH shipped; THUMBS_PATH := THUMBS_PATH shipped;
     CIRCULAR_BUFFER_SECONDS := 20; POST_MOTION_SECONDS := 12;
     CIRCULAR_BUFFER_MAX_CHUNKS := 1000;
     CIRCULAR_BUFFER_MAX_BYTES := 50 * 1024 * 1024;
     VIDEO_RESOLUTION := (1280, 720); VIDEO_FRAMERATE := 15;
     VIDEO_BITRATE := 3000000; MOTION_THRESHOLD := 60;
     MOTION_SENSITIVITY := 50; MOTION_COOLDOWN_SECONDS := 16;
     POST_MOTION_BUFFER_FILL_PERCENT := None;
     POST_MOTION_TIMEOUT_SECONDS := None |}.

Definition healthy : Main.Environment :=
  {| Main.makedirs_ok := true; Main.database_ok := true; Main.camera_ok := true |}.

Definition dark : ndarray := Array2 [[0]].
Definition bright : ndarray := Array2 [[255]].

Definition resize (frame : ndarray) : ndarray := frame.
Definition strftime (t : Z) : string := "2025.01.01--00.00.00".

(** A camera that shows a change to the detector three times; the clock
    jumps by 70 seconds before the last look. *)
Definition busy_world : World :=
  initial_world sensitive_config 1000
    [0; 0; 0; 0; 0; 0; 0; 0; 70000]%N [] []
    [[dark; bright]; [dark]; [bright]].

Definition busy_actions : list System.action :=
  [System.DetectorIteration; System.ProcessorIteration;
   System.ProcessorIteration; System.DetectorIteration;
   System.DetectorIteration; System.DetectorIteration].

(** A world in which the camera fails at the next capture. *)
Definition failing_camera_world : World :=
  initial_world sensitive_config 1000 [] [true] [] [].

End Samples.

(** ** Vocabulary for the reasoning about computations *)

(** [wp m Q w]: running [m] in [w] ends in a result and a world that
    satisfy [Q]. *)
Definition wp {A} (m : M A) (Q : result A -> World -> Prop) (w : World) : Prop :=
  Q (m w).1 (m w).2.

(** What the dump loop has done when it stops, from a world [w], over the
    entries [snapshot], entered with the flag [found] and the counter
    [count]: only writes and flushes of [path], of a prefix of the entries
    from the first keyframe on, and of all of them when it returns. *)
Definition dump_post (path : string) (snapshot : list pyobj) (found : bool)
  (count : Z) (w : World) (r : result (bool * Z)) (w' : World) : Prop :=
  exists (evs : list io_event) (written : list pyobj),
    io_only w w' /\
    io_trace w' = io_trace w ++ evs /\
    Forall (write_or_flush path) evs /\
    (forall q, q <> path -> fs w' !! q = fs w !! q) /\
    (is_Some (fs w' !! path) <-> is_Some (fs w !! path)) /\
    Save.written_data evs = Save.chunk_bytes <$> written /\
    written `prefix_of` (if found then snapshot else Save.from_first_keyframe snapshot) /\
    (forall f c, r = Ok (f, c) ->
       written = (if found then snapshot else Save.from_first_keyframe snapshot) /\
       f = found || existsb Save.chunk_is_keyframe snapshot /\
       c = count + py_len written).


(** * Properties *)

(** ** The chunk ring *)

Section RingFacts.
Import Ring.

Lemma py_len_cons {A} (x : A) (l : list A) : py_len (x :: l) = py_len l + 1.
Proof. unfold py_len. cbn [length]. lia. Qed.

Lemma py_len_app {A} (l k : list A) : py_len (l ++ k) = py_len l + py_len k.
Proof. unfold py_len. rewrite length_app. lia. Qed.

Lemma py_len_nil {A} : py_len (@nil A) = 0.
Proof. reflexivity. Qed.

Lemma py_len_nonneg {A} (l : list A) : 0 <= py_len l.
Proof. unfold py_len. lia. Qed.

Ltac zlen :=
  rewrite ?py_len_app, ?py_len_cons, ?py_len_nil in *; cbn [fst snd] in *;
  try lia.

(** The loop only removes entries from the front and counts each of them. *)
Lemma evict_oldest_drops maxc circ count :
  exists dropped,
    circ = dropped ++ (evict_oldest maxc circ count).1 /\
    (evict_oldest maxc circ count).2 = count + py_len dropped.
Proof.
  revert count. induction circ as [|c circ IH]; intros count.
  - exists []. split; [reflexivity | cbn; unfold py_len; cbn; lia].
  - cbn [evict_oldest]. destruct (maxc <=? py_len (c :: circ)).
    + destruct (IH (count + 1)) as (dropped & Heq & Hcnt).
      exists (c :: dropped). split.
      * cbn. f_equal. exact Heq.
      * rewrite Hcnt, py_len_cons. lia.
    + exists []. split; [reflexivity | cbn; unfold py_len; cbn; lia].
Qed.

(** With a positive capacity the loop leaves room for one more entry. *)
Lemma evict_oldest_room maxc circ count :
  0 < maxc -> py_len (evict_oldest maxc circ count).1 < maxc.
Proof.
  intros Hpos. revert count. induction circ as [|c circ IH]; intros count.
  - cbn. unfold py_len. cbn. lia.
  - cbn [evict_oldest]. destruct (Z.leb_spec maxc (py_len (c :: circ))).
    + apply IH.
    + cbn [fst]. lia.
Qed.

Lemma evict_oldest_not_full maxc circ count :
  py_len circ < maxc -> evict_oldest maxc circ count = (circ, count).
Proof.
  intros Hlt. destruct circ as [|c circ]; [reflexivity|].
  cbn [evict_oldest]. destruct (Z.leb_spec maxc (py_len (c :: circ))); [lia|reflexivity].
Qed.

Lemma evict_oldest_full maxc circ count :
  0 < maxc -> py_len circ = maxc ->
  evict_oldest maxc circ count = (tail circ, count + 1).
Proof.
  intros Hpos Hfull. destruct circ as [|c circ]; [unfold py_len in Hfull; cbn in Hfull; lia|].
  cbn [evict_oldest tail]. destruct (Z.leb_spec maxc (py_len (c :: circ))); [|lia].
  apply evict_oldest_not_full. rewrite py_len_cons in Hfull. lia.
Qed.

Lemma outputframe_max r f k : max_chunks (outputframe r f k) = max_chunks r.
Proof. unfold outputframe. destruct (evict_oldest _ _ _). reflexivity. Qed.

Lemma run_appends_max r appends :
  max_chunks (run_appends r appends) = max_chunks r.
Proof.
  revert r. induction appends as [|fk appends IH]; intros r; [reflexivity|].
  cbn. fold (run_appends (outputframe r fk.1 fk.2) appends).
  rewrite IH. apply outputframe_max.
Qed.

Lemma outputframe_bound r f k :
  0 < max_chunks r -> ring_len (outputframe r f k) <= max_chunks r.
Proof.
  intros Hpos. unfold outputframe, ring_len.
  pose proof (evict_oldest_room (max_chunks r) (_circular r) (_chunk_count r) Hpos) as H.
  destruct (evict_oldest _ _ _) as [circ count]. cbn in *.
  unfold parent_outputframe. zlen.
Qed.

(** One append: the counter grows by the number of entries that left. *)
Lemma outputframe_count r f k :
  _chunk_count (outputframe r f k)
  = _chunk_count r + (ring_len r + 1 - ring_len (outputframe r f k)).
Proof.
  unfold outputframe, ring_len.
  destruct (evict_oldest_drops (max_chunks r) (_circular r) (_chunk_count r))
    as (dropped & Heq & Hcnt).
  destruct (evict_oldest _ _ _) as [circ count]. cbn in *.
  unfold parent_outputframe.
  assert (py_len (_circular r) = py_len dropped + py_len circ) as Hl
    by (rewrite Heq at 1; apply py_len_app).
  zlen.
Qed.

Lemma outputframe_step r f k :
  0 < max_chunks r ->
  (ring_len r = max_chunks r ->
     _circular (outputframe r f k) = tail (_circular r) ++ [PyTuple [f; k]] /\
     _chunk_count (outputframe r f k) = _chunk_count r + 1) /\
  (ring_len r < max_chunks r ->
     _circular (outputframe r f k) = _circular r ++ [PyTuple [f; k]] /\
     _chunk_count (outputframe r f k) = _chunk_count r).
Proof.
  intros Hpos. unfold outputframe, ring_len. split; intros H.
  - rewrite evict_oldest_full by assumption. split; reflexivity.
  - rewrite evict_oldest_not_full by assumption. split; reflexivity.
Qed.

Lemma observations_bound r appends :
  0 < max_chunks r -> ring_len r <= max_chunks r ->
  Forall (fun o => ring_len o <= max_chunks r) (observations r appends).
Proof.
  revert r. induction appends as [|[f k] appends IH]; intros r Hpos Hlen; cbn.
  - constructor; [assumption | constructor].
  - constructor; [assumption|].
    rewrite <- (outputframe_max r f k). apply IH.
    + rewrite outputframe_max. assumption.
    + rewrite outputframe_max. apply outputframe_bound. assumption.
Qed.

Lemma observations_step r appends i o o' fk :
  observations r appends !! i = Some o ->
  observations r appends !! S i = Some o' ->
  appends !! i = Some fk ->
  o' = outputframe o fk.1 fk.2 /\ max_chunks o = max_chunks r.
Proof.
  revert r i. induction appends as [|fk0 appends IH]; intros r i Ho Ho' Hfk.
  - rewrite lookup_nil in Hfk. discriminate.
  - destruct i as [|i]; cbn in *.
    + injection Ho as <-. injection Hfk as <-. split; [|reflexivity].
      destruct appends; cbn in Ho'; congruence.
    + destruct (IH _ _ Ho Ho' Hfk) as [-> Hmax].
      split; [reflexivity|]. rewrite Hmax. apply outputframe_max.
Qed.

Lemma run_appends_count r appends :
  _chunk_count (run_appends r appends)
  = _chunk_count r + (ring_len r + py_len appends - ring_len (run_appends r appends)).
Proof.
  revert r. induction appends as [|fk appends IH]; intros r.
  - cbn. zlen.
  - cbn [run_appends fold_left]. fold (run_appends (outputframe r fk.1 fk.2) appends).
    rewrite IH, outputframe_count. zlen.
Qed.

(** [clear] empties the ring and keeps the eviction counter. *)
Lemma clear_keeps_count r :
  ring_len (clear r) = 0 /\ _chunk_count (clear r) = _chunk_count r.
Proof. split; reflexivity. Qed.

(** C2. For a ring of positive capacity and every sequence of appends, the
    length of the ring is at most [max_chunks] at every observation point;
    an append to a full ring first drops the oldest entry and adds one to the
    eviction counter, an append to a ring that is not full drops nothing and
    leaves the counter alone; over the whole run the counter has grown by
    exactly the number of dropped entries. *)
Theorem ring_bound_and_eviction_count
  (r : BoundedCircularOutput) (appends : list (pyobj * pyobj)) :
  0 < max_chunks r ->
  ring_len r <= max_chunks r ->
  Forall (fun o => ring_len o <= max_chunks r) (observations r appends) /\
  (forall i o o' fk,
      observations r appends !! i = Some o ->
      observations r appends !! S i = Some o' ->
      appends !! i = Some fk ->
      (ring_len o = max_chunks r ->
         _circular o' = tail (_circular o) ++ [PyTuple [fk.1; fk.2]] /\
         _chunk_count o' = _chunk_count o + 1) /\
      (ring_len o < max_chunks r ->
         _circular o' = _circular o ++ [PyTuple [fk.1; fk.2]] /\
         _chunk_count o' = _chunk_count o)) /\
  _chunk_count (run_appends r appends)
  = _chunk_count r
    + (ring_len r + py_len appends - ring_len (run_appends r appends)).
Proof.
  intros Hpos Hlen. split; [|split].
  - apply observations_bound; assumption.
  - intros i o o' fk Ho Ho' Hfk.
    destruct (observations_step _ _ _ _ _ _ Ho Ho' Hfk) as [-> Hmax].
    rewrite <- Hmax. apply outputframe_step. rewrite Hmax. assumption.
  - apply run_appends_count.
Qed.

(** The theorem at a ring of capacity 2 that receives three chunks. *)
Lemma ring_bound_and_eviction_count_witness :
  let r := init 1024 2 in
  let a := [(PyBytes [], PyBool true); (PyBytes [], PyBool false);
            (PyBytes [], PyBool false)] in
  0 < max_chunks r /\ ring_len r <= max_chunks r /\
  Forall (fun o => ring_len o <= max_chunks r) (observations r a) /\
  _chunk_count (run_appends r a) = 1.
Proof.
  cbv zeta. split; [reflexivity|]. split; [discriminate|].
  pose proof (ring_bound_and_eviction_count (init 1024 2)
    [(PyBytes [], PyBool true); (PyBytes [], PyBool false);
     (PyBytes [], PyBool false)]) as H.
  destruct H as (Hb & _ & Hc); [reflexivity | discriminate |].
  split; [exact Hb | reflexivity].
Defined.

End RingFacts.

(** ** The frame pair *)

Section FramePairFacts.
Import FramePair.
Variable resize : ndarray -> ndarray.

Lemma pushes_snoc b frames f :
  pushes b (frames ++ [f]) = push (pushes b frames) f.
Proof. unfold pushes. apply fold_left_app. Qed.

Lemma pushes_last b frames f :
  current_frame (pushes b (frames ++ [f])) = Some f /\
  previous_frame (pushes b (frames ++ [f])) = current_frame (pushes b frames).
Proof. rewrite pushes_snoc. split; reflexivity. Qed.

(** C3. After the pushes [p1 ... pn] into an empty frame pair: for [n >= 2]
    the current frame is [pn] and the previous frame is [p(n-1)], and the
    detection read returns their downscaled copies; for [n = 0] and for
    [n = 1] the detection read returns [(None, None)]. *)
Theorem frame_pair_rotation (frames : list ndarray) :
  let b := pushes init frames in
  let n := length frames in
  ((2 <= n)%nat ->
     current_frame b = frames !! (n - 1)%nat /\
     previous_frame b = frames !! (n - 2)%nat /\
     is_Some (current_frame b) /\ is_Some (previous_frame b) /\
     get_frames_for_detection resize b
     = (resize <$> frames !! (n - 2)%nat, resize <$> frames !! (n - 1)%nat)) /\
  (n = 0%nat -> get_frames_for_detection resize b = (None, None)) /\
  (n = 1%nat -> get_frames_for_detection resize b = (None, None)).
Proof.
  cbv zeta. split; [|split].
  - intros Hn.
    destruct (exists_last (l := frames)) as (front & f & ->);
      [intros ->; cbn in Hn; lia|].
    destruct (exists_last (l := front)) as (front' & f' & ->);
      [intros ->; rewrite length_app in Hn; cbn in Hn; lia|].
    destruct (pushes_last init (front' ++ [f']) f) as [Hc Hp].
    destruct (pushes_last init front' f') as [Hc' _].
    rewrite Hc' in Hp.
    assert (((front' ++ [f']) ++ [f]) !! (length ((front' ++ [f']) ++ [f]) - 1)%nat
            = Some f) as H1.
    { rewrite !length_app. cbn [length].
      rewrite lookup_app_r by (rewrite length_app; cbn; lia).
      rewrite length_app. cbn [length].
      replace (_ - _)%nat with 0%nat by lia. reflexivity. }
    assert (((front' ++ [f']) ++ [f]) !! (length ((front' ++ [f']) ++ [f]) - 2)%nat
            = Some f') as H2.
    { rewrite !length_app. cbn [length].
      rewrite lookup_app_l by (rewrite length_app; cbn; lia).
      rewrite lookup_app_r by lia.
      replace (_ - _)%nat with 0%nat by lia. reflexivity. }
    rewrite H1, H2, Hc, Hp. unfold get_frames_for_detection. rewrite Hc, Hp.
    repeat split; eauto.
  - intros Hn. destruct frames; [reflexivity | discriminate].
  - intros Hn. destruct frames as [|f [|? ?]]; try discriminate. reflexivity.
Qed.

End FramePairFacts.

(** The rotation at three concrete frames. *)
Lemma frame_pair_rotation_witness :
  let frames := [Array2 [[1]]; Array2 [[2]]; Array2 [[3]]] in
  FramePair.current_frame (FramePair.pushes FramePair.init frames)
  = Some (Array2 [[3]]) /\
  FramePair.previous_frame (FramePair.pushes FramePair.init frames)
  = Some (Array2 [[2]]).
Proof.
  cbv zeta.
  destruct (frame_pair_rotation (fun a => a)
              [Array2 [[1]]; Array2 [[2]]; Array2 [[3]]]) as [H _].
  destruct H as (Hc & Hp & _); [cbn; lia|].
  split; [exact Hc | exact Hp].
Defined.

(** ** The frame comparison *)

Section CompareFacts.
Import Motion.

Lemma pixel_map {A B} (f : A -> B) (p : list (list A)) i j :
  pixel (map (map f) p) i j = f <$> pixel p i j.
Proof.
  unfold pixel. rewrite list_lookup_fmap.
  destruct (p !! i) as [row|]; cbn; [|reflexivity].
  apply list_lookup_fmap.
Qed.

Lemma pixel_zip_with {A B C} (f : A -> B -> C) p q i j a b :
  pixel p i j = Some a -> pixel q i j = Some b ->
  pixel (zip_with (zip_with f) p q) i j = Some (f a b).
Proof.
  unfold pixel. intros Hp Hq. rewrite lookup_zip_with.
  destruct (p !! i) as [rp|]; cbn in *; [|discriminate].
  destruct (q !! i) as [rq|]; cbn in *; [|discriminate].
  rewrite lookup_zip_with, Hp. cbn. rewrite Hq. reflexivity.
Qed.

Lemma shape2_map {A B} (f : A -> B) (p : list (list A)) :
  shape2 (map (map f) p) = shape2 p.
Proof.
  unfold shape2. rewrite map_map. apply map_ext. intros row. apply length_map.
Qed.

Lemma shape2_zip_with {A B C} (f : A -> B -> C) p q :
  shape2 p = shape2 q -> shape2 (zip_with (zip_with f) p q) = shape2 p.
Proof.
  unfold shape2. revert q. induction p as [|rp p IH]; intros [|rq q] H;
    cbn in *; try discriminate; [reflexivity..|].
  injection H as Hrow Hrest. f_equal; [|apply IH; assumption].
  rewrite length_zip_with. lia.
Qed.

(** The comparison of two planes of one shape. *)
Lemma compare_planes self debug_image g1 g2 :
  debug_mode self = false ->
  shape2 g1 = shape2 g2 ->
  let mask := greater (zip_with (zip_with (fun a b => Z.abs (a - b))) g1 g2)
                (threshold self) in
  (diff ← absdiff g1 (Array2 g2);
   let changed_pixels := count_nonzero (greater diff (threshold self)) in
   _ ← (if debug_mode self then debug_image else Ok tt);
   Ok (sensitivity self <? changed_pixels, changed_pixels))
  = Ok (sensitivity self <? count_nonzero mask, count_nonzero mask).
Proof.
  intros Hdbg Hshape. cbv zeta. unfold absdiff.
  destruct (decide (shape2 g1 = shape2 g2)) as [_|Hne]; [|contradiction].
  cbn. rewrite Hdbg. reflexivity.
Qed.

(** C4. For two frames of the same kind and size (and with the debug image
    switched off, as it is unless [enable_debug_mode] is called) the comparison
    returns [(motion, changed)] where [changed] is the number of entries of a
    mask over the pixel positions whose entry at a position is set exactly
    when the absolute difference of the green values (of the single plane for
    two-dimensional frames) is greater than the threshold, and [motion] holds
    exactly when [changed] is greater than the sensitivity. *)
Theorem compare_frames_counts_changed_pixels
  (self : MotionDetector) (debug_image : result unit) (frame1 frame2 : ndarray) :
  debug_mode self = false ->
  ndim frame1 = ndim frame2 ->
  shape2 (detection_plane frame1) = shape2 (detection_plane frame2) ->
  exists (mask : list (list bool)) (motion : bool) (changed : Z),
    _compare_frames self debug_image frame1 frame2 = Ok (motion, changed) /\
    shape2 mask = shape2 (detection_plane frame1) /\
    (forall i j g1 g2,
        pixel (detection_plane frame1) i j = Some g1 ->
        pixel (detection_plane frame2) i j = Some g2 ->
        exists m, pixel mask i j = Some m /\
                  (m = true <-> threshold self < Z.abs (g1 - g2))) /\
    changed = count_nonzero mask /\
    (motion = true <-> sensitivity self < changed).
Proof.
  intros Hdbg Hdim Hshape.
  set (g1 := detection_plane frame1) in *.
  set (g2 := detection_plane frame2) in *.
  exists (greater (zip_with (zip_with (fun a b => Z.abs (a - b))) g1 g2)
            (threshold self)).
  eexists _, _. split; [|split; [|split; [|split]]].
  - pose proof (compare_planes self debug_image g1 g2 Hdbg Hshape) as H.
    cbv zeta in H. unfold _compare_frames.
    destruct frame1 as [r1|r1], frame2 as [r2|r2]; cbn in Hdim;
      try discriminate; exact H.
  - unfold greater. rewrite shape2_map. apply shape2_zip_with. exact Hshape.
  - intros i j a b Ha Hb. unfold greater. rewrite pixel_map.
    rewrite (pixel_zip_with _ _ _ _ _ _ _ Ha Hb). cbn.
    eexists. split; [reflexivity|]. apply Z.ltb_lt.
  - reflexivity.
  - apply Z.ltb_lt.
Qed.

End CompareFacts.

(** The comparison at two 1x2 colour frames with one changed pixel. *)
Lemma compare_frames_counts_changed_pixels_witness :
  let self := Motion.init 60 0 65000 in
  let f1 := Array3 [[(0, 10, 0); (0, 10, 0)]] in
  let f2 := Array3 [[(0, 200, 0); (0, 20, 0)]] in
  Motion.debug_mode self = false /\ ndim f1 = ndim f2 /\
  Motion._compare_frames self (Ok tt) f1 f2 = Ok (true, 1).
Proof.
  cbv zeta. split; [reflexivity|]. split; [reflexivity|].
  destruct (compare_frames_counts_changed_pixels (Motion.init 60 0 65000) (Ok tt)
              (Array3 [[(0, 10, 0); (0, 10, 0)]])
              (Array3 [[(0, 200, 0); (0, 20, 0)]]))
    as (mask & motion & changed & Hrun & _); [reflexivity..|].
  vm_compute in Hrun. vm_compute. reflexivity.
Defined.

(** ** Reasoning about computations over the world *)

Section Wp.

Lemma wp_mono {A} (m : M A) (P Q : result A -> World -> Prop) w :
  wp m P w -> (forall r w', P r w' -> Q r w') -> wp m Q w.
Proof. unfold wp. auto. Qed.

Lemma wp_ret {A} (a : A) Q w : Q (Ok a) w -> wp (ret a) Q w.
Proof. exact id. Qed.

Lemma wp_raise {A} e (Q : result A -> World -> Prop) w :
  Q (Raise e) w -> wp (raise e) Q w.
Proof. exact id. Qed.

Lemma wp_bind {A B} (m : M A) (k : A -> M B) Q w :
  wp m (fun r w' => match r with
                    | Ok a => wp (k a) Q w'
                    | Raise e => Q (Raise e) w'
                    end) w ->
  wp (bind m k) Q w.
Proof. unfold wp, bind. destruct (m w) as [[a|e] w']; exact id. Qed.

Lemma wp_try_except {A} (body : M A) handler Q w :
  wp body (fun r w' => match r with
                       | Ok a => Q (Ok a) w'
                       | Raise e => wp (handler e) Q w'
                       end) w ->
  wp (try_except body handler) Q w.
Proof. unfold wp, try_except. destruct (body w) as [[a|e] w']; exact id. Qed.

Lemma wp_try_finally {A} (body : M A) cleanup Q w :
  wp body (fun r w' =>
             wp cleanup (fun c w'' => match c with
                                      | Ok _ => Q r w''
                                      | Raise e => Q (Raise e) w''
                                      end) w') w ->
  wp (try_finally body cleanup) Q w.
Proof.
  unfold wp, try_finally. destruct (body w) as [r w']. cbn.
  destruct (cleanup w') as [[c|e] w'']; exact id.
Qed.

Lemma wp_get {A} (f : World -> A) Q w : Q (Ok (f w)) w -> wp (get f) Q w.
Proof. exact id. Qed.

Lemma wp_modify (f : World -> World) Q w : Q (Ok tt) (f w) -> wp (modify f) Q w.
Proof. exact id. Qed.

Lemma wp_log l m Q w : Q (Ok tt) (with_log l m w) -> wp (log l m) Q w.
Proof. exact id. Qed.

(** A fallible operation either goes through or raises; in both cases only
    the list of pending faults changes. *)
Lemma wp_fault e Q w :
  (forall fl, Q (Ok tt) (with_faults fl w)) ->
  (forall fl, Q (Raise e) (with_faults fl w)) ->
  wp (fault e) Q w.
Proof.
  intros Hok Hraise. unfold wp, fault.
  destruct w as [? ? fl ? ? ? ? ? ? ? ? ? ? ? ?]. cbn.
  destruct fl as [|[] rest]; cbn; [apply (Hok [])|apply Hraise|apply Hok].
Qed.

Lemma pass_time_clock extra w :
  0 <= extra ->
  exists t ds, pass_time extra w = with_clock t ds w /\ now w + extra <= t.
Proof.
  intros Hextra. unfold pass_time. destruct (delays w) as [|d rest].
  - eexists _, _. split; [reflexivity | lia].
  - eexists _, _. split; [reflexivity | lia].
Qed.

Lemma wp_clock Q w :
  (forall t ds, now w <= t -> Q (Ok t) (with_clock t ds w)) ->
  wp clock Q w.
Proof.
  intros H. unfold wp, clock. cbn.
  destruct (pass_time_clock 0 w) as (t & ds & -> & Ht); [lia|].
  cbn. apply H. lia.
Qed.

Lemma wp_sleep ms Q w :
  (forall t ds, now w + Z.max 0 ms <= t -> Q (Ok tt) (with_clock t ds w)) ->
  wp (sleep ms) Q w.
Proof.
  intros H. unfold wp, sleep. cbn.
  destruct (pass_time_clock (Z.max 0 ms) w) as (t & ds & -> & Ht); [lia|].
  apply H. lia.
Qed.

Lemma wp_encoder_runs Q w :
  (forall en r, Ring.max_chunks r = Ring.max_chunks (ring w) ->
                Q (Ok tt) (with_ring en r w)) ->
  wp encoder_runs Q w.
Proof.
  intros H. unfold wp, encoder_runs.
  destruct w as [? ? ? en ? ? ? ? r ? ? ? ? ? ?]. cbn in *.
  destruct en as [|batch rest]; cbn.
  - apply (H [] r). reflexivity.
  - apply (H rest). apply run_appends_max.
Qed.

Lemma wp_capture_runs Q w :
  (forall cam b, Q (Ok tt) (with_frames cam b w)) ->
  wp capture_runs Q w.
Proof.
  intros H. unfold wp, capture_runs.
  destruct w as [? ? ? ? cam ? ? ? ? b ? ? ? ? ?]. cbn in *.
  destruct cam as [|batch rest]; cbn; [apply (H [] b) | apply H].
Qed.

Lemma wp_getsize path Q w :
  (forall f, fs w !! path = Some f -> Q (Ok (py_len (content f))) w) ->
  (fs w !! path = None -> Q (Raise OSError) w) ->
  wp (os_path_getsize path) Q w.
Proof.
  intros Hsome Hnone. unfold wp, os_path_getsize.
  destruct (fs w !! path) as [f|]; cbn; auto.
Qed.

End Wp.

(** One step of symbolic execution: the first operation of a sequence. *)
Ltac wp_step :=
  lazymatch goal with
  | |- wp (bind _ _) _ _ => apply wp_bind
  | |- wp (ret _) _ _ => apply wp_ret
  | |- wp (raise _) _ _ => apply wp_raise
  | |- wp (try_except _ _) _ _ => apply wp_try_except
  | |- wp (try_finally _ _) _ _ => apply wp_try_finally
  | |- wp (get _) _ _ => apply wp_get
  | |- wp (modify _) _ _ => apply wp_modify
  | |- wp (log _ _) _ _ => apply wp_log
  | |- wp (fault _) _ _ => apply wp_fault; intros ?
  | |- wp clock _ _ => apply wp_clock; intros ? ? ?
  | |- wp (sleep _) _ _ => apply wp_sleep; intros ? ? ?
  | |- wp encoder_runs _ _ => apply wp_encoder_runs; intros ? ? ?
  | |- wp capture_runs _ _ => apply wp_capture_runs; intros ? ?
  | |- wp (os_path_getsize _) _ _ => apply wp_getsize; [intros ? ?|intros ?]
  | |- wp (if ?b then _ else _) _ _ => destruct b eqn:?
  | |- wp (match ?x with _ => _ end) _ _ => destruct x eqn:?
  end; cbv beta iota.

Ltac wp_steps := repeat wp_step.

(** Uses the specification [lem] of the operation at the head of the goal. *)
Ltac wp_call lem :=
  lazymatch goal with
  | |- wp (bind _ _) _ _ => apply wp_bind
  | _ => idtac
  end;
  eapply wp_mono; [apply lem|]; cbv beta.

(** ** The dump loop *)

Section DumpFacts.
Import Save.

Lemma io_only_refl w : io_only w w.
Proof. destruct w. repeat eexists. Qed.

Lemma io_only_trans w1 w2 w3 : io_only w1 w2 -> io_only w2 w3 -> io_only w1 w3.
Proof.
  intros (fl & f & tr & ->) (fl' & f' & tr' & ->). cbn. repeat eexists.
Qed.

Lemma io_only_faults fl w : io_only w (with_faults fl w).
Proof. repeat eexists. Qed.

Lemma io_only_fs f ev w : io_only w (with_fs f ev w).
Proof. repeat eexists. Qed.

Lemma from_first_keyframe_keyframe snapshot c :
  head (from_first_keyframe snapshot) = Some c -> chunk_is_keyframe c = true.
Proof.
  induction snapshot as [|c0 rest IH]; cbn; [discriminate|].
  destruct (chunk_is_keyframe c0) eqn:Hk; [|exact IH].
  cbn. intros [= <-]. exact Hk.
Qed.

Lemma from_first_keyframe_none snapshot :
  existsb chunk_is_keyframe snapshot = false ->
  from_first_keyframe snapshot = [].
Proof.
  induction snapshot as [|c0 rest IH]; cbn; [reflexivity|].
  destruct (chunk_is_keyframe c0); cbn; [discriminate | exact IH].
Qed.

(** The entries before the first keyframe are the ones left out. *)
Lemma from_first_keyframe_split snapshot :
  exists skipped,
    snapshot = skipped ++ from_first_keyframe snapshot /\
    Forall (fun c => chunk_is_keyframe c = false) skipped.
Proof.
  induction snapshot as [|c0 rest (skipped & Heq & Hall)]; cbn.
  - exists []. split; [reflexivity | constructor].
  - destruct (chunk_is_keyframe c0) eqn:Hk.
    + exists []. split; [reflexivity | constructor].
    + exists (c0 :: skipped). split; [cbn; f_equal; exact Heq|].
      constructor; assumption.
Qed.

Lemma dump_post_extend path c rest (found : bool) (count : Z) w w1 r w' evs1 d :
  io_only w w1 ->
  io_trace w1 = io_trace w ++ evs1 ->
  Forall (write_or_flush path) evs1 ->
  (forall q, q <> path -> fs w1 !! q = fs w !! q) ->
  (is_Some (fs w1 !! path) <-> is_Some (fs w !! path)) ->
  written_data evs1 = [d] ->
  chunk_bytes c = d ->
  dump_post path rest true (count + 1) w1 r w' ->
  (if found then c :: rest else from_first_keyframe (c :: rest)) = c :: rest ->
  (found || existsb chunk_is_keyframe (c :: rest)) = true ->
  dump_post path (c :: rest) found count w r w'.
Proof.
  intros Hio Htr Hev Hfs Hsome Hwr Hbytes
    (evs & written & Hio' & Htr' & Hev' & Hfs' & Hsome' & Hwr' & Hpre & Hok)
    Hexp Hfound.
  exists (evs1 ++ evs), (c :: written). repeat split.
  - eapply io_only_trans; eassumption.
  - rewrite Htr', Htr. symmetry. apply app_assoc.
  - apply Forall_app. split; assumption.
  - intros q Hq. rewrite Hfs', Hfs by assumption. reflexivity.
  - rewrite Hsome'. apply Hsome.
  - rewrite Hsome'. apply Hsome.
  - unfold written_data in *. rewrite omap_app, Hwr, Hwr'. cbn. rewrite Hbytes.
    reflexivity.
  - rewrite Hexp. apply prefix_cons. exact Hpre.
  - destruct (Hok _ _ H) as (-> & _ & _). symmetry. exact Hexp.
  - destruct (Hok _ _ H) as (_ & -> & _). rewrite Hfound. reflexivity.
  - destruct (Hok _ _ H) as (_ & _ & ->). rewrite py_len_cons. lia.
Qed.

Lemma dump_chunks_spec path snapshot :
  Forall chunk_wf snapshot ->
  forall found count w,
    wp (dump_chunks path snapshot found count)
       (dump_post path snapshot found count w) w.
Proof.
  induction 1 as [|c rest (d & k & ->) Hrest IH]; intros found count w.
  - cbn. apply wp_ret. exists [], [].
    repeat split; auto using io_only_refl;
      try (rewrite app_nil_r; reflexivity);
      try (destruct found; apply prefix_nil).
    all: match goal with H : Ok _ = Ok _ |- _ => injection H as <- <- end.
    all: destruct found; cbn; try reflexivity; unfold py_len; cbn; lia.
  - cbn [dump_chunks]. change (2 <=? py_len [PyBytes d; PyBool k]) with true.
    change (1 <? py_len [PyBytes d; PyBool k]) with true. cbn iota.
    cbn [nth truthy].
    destruct (negb found && negb k) eqn:Hskip.
    + (* skipped: before the first keyframe *)
      apply andb_true_iff in Hskip as [Hf Hk].
      apply negb_true_iff in Hf, Hk. subst.
      eapply wp_mono; [apply IH|]. intros r w'
        (evs & written & Hio' & Htr' & Hev' & Hfs' & Hsome' & Hwr' & Hpre & Hok).
      exists evs, written. repeat split; try assumption; try apply Hsome'.
      * apply (Hok _ _ H).
      * destruct (Hok _ _ H) as (_ & -> & _). reflexivity.
      * apply (Hok _ _ H).
    + (* written *)
      assert ((if found then PyTuple [PyBytes d; PyBool k] :: rest
               else from_first_keyframe (PyTuple [PyBytes d; PyBool k] :: rest))
              = PyTuple [PyBytes d; PyBool k] :: rest) as Hexp.
      { destruct found, k; try discriminate; reflexivity. }
      assert ((found || existsb chunk_is_keyframe
                          (PyTuple [PyBytes d; PyBool k] :: rest)) = true) as Hfound.
      { destruct found, k; try discriminate; reflexivity. }
      unfold f_write, f_flush. wp_steps.
      * eapply wp_mono; [apply IH|]. intros r w' Hpost.
        eapply (dump_post_extend path _ rest found count w _ r w'
                  [EvWrite path d; EvFlush path] d);
          [| | | | | | |exact Hpost|exact Hexp|exact Hfound]; cbn.
        -- repeat eexists.
        -- rewrite <- app_assoc. reflexivity.
        -- repeat constructor.
        -- intros q Hq. apply lookup_alter_ne. congruence.
        -- rewrite lookup_alter_eq. apply fmap_is_Some.
        -- reflexivity.
        -- reflexivity.
      * exists [EvWrite path d], [PyTuple [PyBytes d; PyBool k]].
        repeat split; try discriminate;
          try (rewrite Hexp; apply prefix_cons, prefix_nil); cbn.
        -- repeat eexists.
        -- repeat constructor.
        -- intros q Hq. apply lookup_alter_ne. congruence.
        -- rewrite lookup_alter_eq. apply fmap_is_Some.
        -- rewrite lookup_alter_eq. apply fmap_is_Some.
      * eapply wp_mono; [apply IH|]. intros r w' Hpost.
        eapply (dump_post_extend path _ rest found count w _ r w'
                  [EvWrite path d] d);
          [| | | | | | |exact Hpost|exact Hexp|exact Hfound]; cbn.
        -- repeat eexists.
        -- reflexivity.
        -- repeat constructor.
        -- intros q Hq. apply lookup_alter_ne. congruence.
        -- rewrite lookup_alter_eq. apply fmap_is_Some.
        -- reflexivity.
        -- reflexivity.
      * exists [], []. repeat split; try discriminate; auto using prefix_nil.
        -- repeat eexists.
        -- cbn. rewrite app_nil_r. reflexivity.
Qed.

End DumpFacts.

Section DumpPhase.
Import Save.

Lemma dump_chunks_no_keyframe path snapshot count :
  existsb chunk_is_keyframe snapshot = false ->
  Forall chunk_wf snapshot ->
  forall w, dump_chunks path snapshot false count w = (Ok (false, count), w).
Proof.
  intros Hno Hwf. induction Hwf as [|c rest (d & k & ->) Hrest IH]; intros w.
  - reflexivity.
  - cbn in Hno. apply orb_false_iff in Hno as [-> Hno]. cbn. apply IH, Hno.
Qed.

(** C8. In a dump phase over a snapshot of well-formed entries, the byte
    strings written to the file are those of a prefix of the entries from the
    first keyframe on (all of them when the phase ends normally), so the
    first one written belongs to an entry with [is_keyframe] set and the
    entries before the first keyframe are skipped; without a keyframe in the
    snapshot the phase touches no file, ends normally and logs its warning. *)
Theorem dump_phase_starts_at_keyframe
  (path : string) (no_keyframe : log_message) (w w1 : World)
  (snapshot : list pyobj) :
  ring_snapshot w = (Ok snapshot, w1) ->
  Forall chunk_wf snapshot ->
  let r := (dump_phase path no_keyframe w).1 in
  let w' := (dump_phase path no_keyframe w).2 in
  exists (evs : list io_event) (written skipped : list pyobj),
    io_trace w' = io_trace w ++ evs /\
    written_data evs = chunk_bytes <$> written /\
    snapshot = skipped ++ from_first_keyframe snapshot /\
    Forall (fun c => chunk_is_keyframe c = false) skipped /\
    written `prefix_of` from_first_keyframe snapshot /\
    (forall c, head written = Some c -> chunk_is_keyframe c = true) /\
    (is_ok r = true -> written = from_first_keyframe snapshot) /\
    (existsb chunk_is_keyframe snapshot = false ->
       evs = [] /\ r = Ok 0 /\ fs w' = fs w /\
       logs w' = logs w ++ [(WARNING, no_keyframe)]).
Proof.
  intros Hsnap Hwf. cbv zeta.
  destruct (from_first_keyframe_split snapshot) as (skipped & Hsplit & Hskipped).
  assert (io_trace w1 = io_trace w /\ fs w1 = fs w /\ logs w1 = logs w)
    as (Htr1 & Hfs1 & Hlogs1).
  { unfold ring_snapshot, bind, encoder_runs, get in Hsnap.
    destruct (encoder w) as [|batch en]; injection Hsnap as _ <-;
      repeat split. }
  unfold dump_phase, bind. rewrite Hsnap.
  pose proof (dump_chunks_spec path snapshot Hwf false 0 w1) as Hdump.
  unfold wp in Hdump.
  destruct (dump_chunks path snapshot false 0 w1) as [[[found count]|e] w2] eqn:Hrun;
    cbn [fst snd] in *;
    destruct Hdump as
      (evs & written & Hio & Htr & Hev & Hfs & Hsome & Hwr & Hpre & Hok).
  - destruct (Hok _ _ eq_refl) as (Hw & Hf & Hc).
    assert (existsb chunk_is_keyframe snapshot = false ->
            evs = [] /\ count = 0 /\ fs w2 = fs w1 /\ found = false) as Hnone.
    { intros Hno.
      rewrite (dump_chunks_no_keyframe path snapshot 0 Hno Hwf) in Hrun.
      injection Hrun as <- <- <-. rewrite <- (app_nil_r (io_trace w1)) in Htr at 1.
      apply app_inv_head in Htr. auto. }
    exists evs, written, skipped.
    destruct found; cbn [negb fst snd ret log modify];
      (split; [rewrite <- Htr1; exact Htr|]);
      (split; [exact Hwr|]); (split; [exact Hsplit|]);
      (split; [exact Hskipped|]); (split; [exact Hpre|]);
      (split; [intros c Hc'; rewrite Hw in Hc';
               eapply from_first_keyframe_keyframe; exact Hc'|]);
      (split; [intros _; exact Hw|]); intros Hno;
      destruct (Hnone Hno) as (-> & -> & Hfs2 & Hfound); try discriminate.
    destruct Hio as (fl & f & tr & ->). cbn in *.
    repeat split; congruence.
  - exists evs, written, skipped.
    (split; [rewrite <- Htr1; exact Htr|]);
      (split; [exact Hwr|]); (split; [exact Hsplit|]);
      (split; [exact Hskipped|]); (split; [exact Hpre|]).
    split; [|split].
    + intros c Hc. destruct Hpre as [k Hk].
      eapply from_first_keyframe_keyframe. rewrite Hk.
      destruct written; [discriminate | exact Hc].
    + discriminate.
    + intros Hno.
      rewrite (dump_chunks_no_keyframe path snapshot 0 Hno Hwf) in Hrun.
      discriminate.
Qed.

End DumpPhase.

(** The phase on a ring that holds a delta frame, a keyframe and another
    delta frame: the keyframe and what follows it are written. *)
Lemma dump_phase_starts_at_keyframe_witness :
  let delta := PyTuple [PyBytes [Byte.x61]; PyBool false] in
  let key := PyTuple [PyBytes [Byte.x6b]; PyBool true] in
  let w := with_ring [] (Ring.mkRing [delta; key; delta] 4 0 1024)
             (initial_world Config.shipped 1 [] [] [] []) in
  Save.ring_snapshot w = (Ok [delta; key; delta], w) /\
  Forall Save.chunk_wf [delta; key; delta] /\
  Save.written_data (io_trace (Save.dump_phase "v.h264" NoKeyframeInBuffer w).2)
  = [[Byte.x6b]; [Byte.x61]].
Proof.
  cbv zeta. split; [reflexivity|]. split; [repeat constructor; repeat eexists|].
  destruct (dump_phase_starts_at_keyframe "v.h264" NoKeyframeInBuffer
              (with_ring [] (Ring.mkRing
                 [PyTuple [PyBytes [Byte.x61]; PyBool false];
                  PyTuple [PyBytes [Byte.x6b]; PyBool true];
                  PyTuple [PyBytes [Byte.x61]; PyBool false]] 4 0 1024)
                 (initial_world Config.shipped 1 [] [] [] [])) _ _
              eq_refl) as (evs & written & skipped & Htr & Hwr & _);
    [repeat constructor; repeat eexists|].
  reflexivity.
Defined.

(** ** The save protocol *)

Section FileJob.

Lemma file_job_refl p w : file_job p w w.
Proof.
  split; [|split]; auto. exists []. split; [|constructor].
  symmetry. apply app_nil_r.
Qed.

Lemma file_job_trans p w1 w2 w3 :
  file_job p w1 w2 -> file_job p w2 w3 -> file_job p w1 w3.
Proof.
  intros ((evs & Ht & He) & Hf & Hs) ((evs' & Ht' & He') & Hf' & Hs').
  split; [|split].
  - exists (evs ++ evs'). split; [|apply Forall_app; auto].
    rewrite Ht', Ht. symmetry. apply app_assoc.
  - intros q Hq. rewrite Hf', Hf by assumption. reflexivity.
  - auto.
Qed.

(** Steps that leave the files and the file events alone. *)
Lemma file_job_same p w w1 w2 :
  io_trace w2 = io_trace w1 -> fs w2 = fs w1 ->
  file_job p w w1 -> file_job p w w2.
Proof.
  intros Ht Hf ((evs & Ht' & He) & Hf' & Hs). unfold file_job.
  rewrite Ht, Hf. eauto.
Qed.

Lemma file_job_with_faults p w w1 fl :
  file_job p w w1 -> file_job p w (with_faults fl w1).
Proof. apply file_job_same; reflexivity. Qed.

Lemma file_job_with_clock p w w1 t ds :
  file_job p w w1 -> file_job p w (with_clock t ds w1).
Proof. apply file_job_same; reflexivity. Qed.

Lemma file_job_with_log p w w1 l m :
  file_job p w w1 -> file_job p w (with_log l m w1).
Proof. apply file_job_same; reflexivity. Qed.

Lemma file_job_with_ring p w w1 en r :
  file_job p w w1 -> file_job p w (with_ring en r w1).
Proof. apply file_job_same; reflexivity. Qed.

(** Steps on the file itself. *)
Lemma file_job_event p w w1 f ev :
  on_file p ev ->
  (forall q, q <> p -> f !! q = fs w1 !! q) ->
  (is_Some (fs w1 !! p) -> is_Some (f !! p)) ->
  file_job p w w1 -> file_job p w (with_fs f ev w1).
Proof.
  intros Hev Hq Hp ((evs & Ht & He) & Hf & Hs). split; [|split]; cbn.
  - exists (evs ++ [ev]). split.
    + rewrite Ht. symmetry. apply app_assoc.
    + apply Forall_app. split; [assumption | repeat constructor; assumption].
  - intros q Hne. rewrite Hq, Hf by assumption. reflexivity.
  - auto.
Qed.

Lemma file_job_keep p w w1 ev :
  on_file p ev -> file_job p w w1 -> file_job p w (with_fs (fs w1) ev w1).
Proof. intros Hev. apply file_job_event; auto. Qed.

Lemma file_job_insert p w w1 x ev :
  on_file p ev -> file_job p w w1 ->
  file_job p w (with_fs (<[p := x]> (fs w1)) ev w1).
Proof.
  intros Hev. apply file_job_event; [assumption| |].
  - intros q Hq. apply lookup_insert_ne. congruence.
  - intros _. rewrite lookup_insert_eq. eauto.
Qed.

Lemma file_job_alter p w w1 g ev :
  on_file p ev -> file_job p w w1 ->
  file_job p w (with_fs (alter g p (fs w1)) ev w1).
Proof.
  intros Hev. apply file_job_event; [assumption| |].
  - intros q Hq. apply lookup_alter_ne. congruence.
  - intros Hs. rewrite lookup_alter_eq. apply fmap_is_Some. exact Hs.
Qed.

End FileJob.

(** Discharges [file_job] goals over a symbolically executed world. *)
Ltac job :=
  repeat first
    [ assumption
    | apply file_job_refl
    | apply file_job_with_faults
    | apply file_job_with_clock
    | apply file_job_with_log
    | apply file_job_with_ring
    | apply file_job_keep; [exact eq_refl|]
    | apply file_job_insert; [exact eq_refl|]
    | apply file_job_alter; [exact eq_refl|]
    | match goal with
      | H : file_job ?p ?wa ?wb |- file_job ?p _ ?wb =>
          apply (file_job_trans p _ wa wb); [|exact H]
      end ].

Section SaveFacts.
Import Save Config.

(** The refill loop touches neither the files nor their events. *)
Lemma refill_wait_quiet bound target timeout start last w :
  wp (refill_wait bound target timeout start last)
     (fun _ w' => io_trace w' = io_trace w /\ fs w' = fs w) w.
Proof.
  revert last w. induction bound as [|bound IH]; intros last w;
    cbn [refill_wait]; unfold ring_length; wp_steps;
    try (split; reflexivity);
    (eapply wp_mono; [apply IH|]); cbv beta; intros _ w' [-> ->];
    split; reflexivity.
Qed.

Lemma refill_wait_job path bound target timeout start last w :
  wp (refill_wait bound target timeout start last)
     (fun _ w' => file_job path w w') w.
Proof.
  eapply wp_mono; [apply refill_wait_quiet|]. cbv beta. intros _ w' [Ht Hf].
  eapply file_job_same; [exact Ht | exact Hf | apply file_job_refl].
Qed.

(** The dump loop, whatever the entries of the snapshot are. *)
Lemma dump_chunks_job path snapshot found count w :
  wp (dump_chunks path snapshot found count) (fun _ w' => file_job path w w') w.
Proof.
  revert found count w.
  induction snapshot as [|chunk rest IH]; intros found count w.
  - apply wp_ret. job.
  - cbn [dump_chunks]. unfold f_write, f_flush.
    assert (forall f c w1, file_job path w w1 ->
              wp (dump_chunks path rest f c) (fun _ w' => file_job path w w') w1)
      as Hnext.
    { intros f c w1 H1. eapply wp_mono; [apply IH|]. cbv beta. intros _ w' H'.
      eapply file_job_trans; eassumption. }
    destruct chunk as [| | | |items]; try (apply Hnext; job).
    destruct (2 <=? py_len items); [|apply Hnext; job].
    destruct (negb found && negb _); [apply Hnext; job|].
    destruct (nth 0 items PyNone); try (apply Hnext; job).
    wp_steps; try (apply Hnext); job.
Qed.

Lemma dump_phase_job path msg w :
  wp (dump_phase path msg) (fun _ w' => file_job path w w') w.
Proof.
  unfold dump_phase, ring_snapshot. wp_steps.
  eapply wp_mono; [apply dump_chunks_job|]. cbv beta.
  intros [[found count]|e] w' Hjob; wp_steps; job.
Qed.

(** [save_event_with_continuation] works on its file alone; when it returns,
    its last file events are the final flush, the [fsync] and the close, and
    the file is on the disk. *)
Lemma save_event_with_continuation_job cfg path target timeout w :
  wp (save_event_with_continuation cfg path target timeout)
     (fun r w' =>
        file_job path w w' /\
        (is_ok r = true ->
         exists pre f,
           io_trace w'
           = io_trace w ++ pre ++ [EvFlush path; EvFsync path; EvClose path] /\
           Forall (on_file path) pre /\
           fs w' !! path = Some f /\ synced f = true)) w.
Proof.
  unfold save_event_with_continuation, ring_length, with_open, open_wb.
  wp_steps; try (split; [job | discriminate]).
  all: wp_call dump_phase_job; intros [pre_count|e] w1 Hjob1;
    unfold f_flush, f_close, ring_clear;
    wp_steps; try (split; [job | discriminate]).
  all: wp_call (refill_wait_job path); intros [[]|e] w2 Hjob2;
    wp_steps; try (split; [job | discriminate]).
  all: wp_call dump_phase_job; intros [post_count|e] w3 Hjob3;
    unfold f_flush, f_close, os_fsync, os_path_exists;
    wp_steps; try (split; [job | discriminate]).
  all: split; [job|]; intros _.
  all: match goal with
       | Hj : file_job ?p _ ?w3, Hf : fs _ !! ?p = Some ?f |- _ =>
           assert (file_job p w w3) as ((evs & Ht & He) & _ & _) by job;
           exists evs, f; cbn in Hf |- *; rewrite lookup_alter_eq in Hf |- *;
           destruct (fs w3 !! p) as [f0|]; [|discriminate];
           injection Hf as <-
       end.
  all: rewrite Ht, <- !app_assoc; repeat split; assumption.
Qed.

Lemma buffer_chunks_job path chunks count w :
  wp (buffer_chunks path chunks count) (fun _ w' => file_job path w w') w.
Proof.
  revert count w. induction chunks as [|chunk rest IH]; intros count w.
  - apply wp_ret. job.
  - cbn [buffer_chunks]. unfold f_write, f_flush.
    assert (forall c w1, file_job path w w1 ->
              wp (buffer_chunks path rest c) (fun _ w' => file_job path w w') w1)
      as Hnext.
    { intros c w1 H1. eapply wp_mono; [apply IH|]. cbv beta. intros _ w' H'.
      eapply file_job_trans; eassumption. }
    destruct chunk as [| | | |[|[] ?]]; try (apply Hnext; job).
    wp_steps; try (apply Hnext); job.
Qed.

Lemma save_h264_buffer_job path w :
  wp (save_h264_buffer path) (fun _ w' => file_job path w w') w.
Proof.
  unfold save_h264_buffer, with_open, open_wb, ring_snapshot, f_close.
  wp_steps; try job.
  all: wp_call buffer_chunks_job; intros [c|e] w1 Hjob1; wp_steps; job.
Qed.

Lemma save_job_of_file_job path w w' : file_job path w w' -> save_job path w w'.
Proof.
  intros ((evs & Ht & He) & Hf & _). split.
  - exists evs. split; [exact Ht|].
    eapply Forall_impl; [exact He|]. intros e He'. left. exact He'.
  - intros q Hq Hnone. rewrite Hf by assumption. exact Hnone.
Qed.

Lemma save_job_trans p w1 w2 w3 :
  save_job p w1 w2 -> save_job p w2 w3 -> save_job p w1 w3.
Proof.
  intros ((evs & Ht & He) & Hf) ((evs' & Ht' & He') & Hf'). split.
  - exists (evs ++ evs'). split; [|apply Forall_app; auto].
    rewrite Ht', Ht. symmetry. apply app_assoc.
  - auto.
Qed.

Lemma save_job_same p w w1 w2 :
  io_trace w2 = io_trace w1 -> fs w2 = fs w1 ->
  save_job p w w1 -> save_job p w w2.
Proof.
  intros Ht Hf ((evs & Ht' & He) & Hf'). unfold save_job.
  rewrite Ht, Hf. eauto.
Qed.

Lemma save_job_sync p w w1 :
  save_job p w w1 ->
  save_job p w (with_fs (set_synced true <$> fs w1) EvSync w1).
Proof.
  intros ((evs & Ht & He) & Hf). split; cbn.
  - exists (evs ++ [EvSync]). split.
    + rewrite Ht. symmetry. apply app_assoc.
    + apply Forall_app. split; [assumption|].
      constructor; [right; reflexivity | constructor].
  - intros q Hq Hnone. rewrite lookup_fmap, (Hf q Hq Hnone). reflexivity.
Qed.

Lemma save_job_with_faults p w w1 fl :
  save_job p w w1 -> save_job p w (with_faults fl w1).
Proof. apply save_job_same; reflexivity. Qed.

Lemma save_job_with_log p w w1 l m :
  save_job p w w1 -> save_job p w (with_log l m w1).
Proof. apply save_job_same; reflexivity. Qed.

Lemma string_length_app (s t : string) :
  String.length (s +:+ t) = (String.length s + String.length t)%nat.
Proof.
  induction s as [|c s IH]; [reflexivity|].
  change (S (String.length (s +:+ t)) = S (String.length s + String.length t)).
  rewrite IH. reflexivity.
Qed.

(** The marker is another file than the video. *)
Lemma pending_marker_ne (s : string) : s +:+ ".pending" <> s.
Proof.
  intros H. apply (f_equal String.length) in H.
  rewrite string_length_app in H. cbn in H. lia.
Qed.

(** The file system after [os.sync] and the creation of the marker. *)
Lemma touched_after_sync (m : gmap string file) (marker h : string) (f x : file) :
  h <> marker -> m !! h = Some f ->
  let m' := set_synced true <$> m in
  let touched := match m' !! marker with
                 | Some _ => m'
                 | None => <[marker := x]> m'
                 end in
  touched !! h = Some (set_synced true f) /\ is_Some (touched !! marker).
Proof.
  intros Hne Hf. cbv zeta.
  destruct ((set_synced true <$> m) !! marker) as [y|] eqn:Hm.
  - rewrite lookup_fmap, Hf, Hm. eauto.
  - rewrite lookup_insert_ne by congruence.
    rewrite lookup_insert_eq, lookup_fmap, Hf. eauto.
Qed.

Ltac sjob :=
  repeat first
    [ assumption
    | apply save_job_with_faults
    | apply save_job_with_log
    | apply save_job_sync
    | apply save_job_of_file_job; job ].

(** What [save_h264_as_mp4] leaves behind: after a normal return the events
    end with the final flush, the [fsync] and the close of the video file (on
    the continuation path), [os.sync] and the creation of the marker; after an
    exception the marker has not been created. *)
Lemma save_h264_as_mp4_spec cfg filepath_mp4 use_continuation target timeout w :
  let h := str_replace ".mp4" ".h264" filepath_mp4 in
  let marker := h +:+ ".pending" in
  wp (save_h264_as_mp4 cfg filepath_mp4 use_continuation target timeout)
     (fun r w' =>
        match r with
        | Ok _ =>
            exists pre f,
              io_trace w'
              = io_trace w ++ pre
                ++ (if use_continuation
                    then [EvFlush h; EvFsync h; EvClose h] else [])
                ++ [EvSync; EvTouch marker] /\
              Forall (on_file h) pre /\
              fs w' !! h = Some f /\ synced f = true /\
              is_Some (fs w' !! marker)
        | Raise _ => save_job h w w'
        end) w.
Proof.
  cbv zeta. unfold save_h264_as_mp4, import_name, os_path_exists, os_sync, touch.
  wp_steps; try (sjob; fail).
  - wp_call save_event_with_continuation_job. intros [d|e] w1 [Hjob Hok];
      wp_steps; try (sjob; fail).
    destruct (Hok eq_refl) as (pre & f0 & Ht & Hpre & Hf & Hs).
    exists pre, (set_synced true f0). cbn.
    destruct (touched_after_sync (fs w1) _ _ f0 (mkFile [] false)
                (not_eq_sym (pending_marker_ne _)) Hf) as [Hh Hm].
    cbv zeta in Hh, Hm.
    repeat split; try assumption.
    rewrite Ht, <- !app_assoc. reflexivity.
  - wp_call save_h264_buffer_job. intros [[]|e] w1 Hjob;
      wp_steps; try (sjob; fail).
    destruct Hjob as ((evs & Ht & Hev) & _ & _).
    match goal with Hf : fs w1 !! _ = Some ?f |- _ =>
      exists evs, (set_synced true f); cbn;
      destruct (touched_after_sync (fs w1) _ _ f (mkFile [] false)
                  (not_eq_sym (pending_marker_ne _)) Hf) as [Hh Hm]
    end.
    cbv zeta in Hh, Hm.
    repeat split; try assumption.
    rewrite Ht, <- !app_assoc. reflexivity.
Qed.

End SaveFacts.

(** ** The marker *)

Section MarkerFacts.
Import Save.

Lemma unique_last {A} (x : A) (l before after : list A) :
  x ∉ l -> l ++ [x] = before ++ x :: after -> before = l /\ after = [].
Proof.
  revert before. induction l as [|y l IH]; intros before Hnot Heq.
  - destruct before as [|b before]; cbn in Heq.
    + injection Heq as <-. split; reflexivity.
    + injection Heq as _ Heq. destruct before; discriminate.
  - destruct before as [|b before]; cbn in Heq.
    + injection Heq as -> _. exfalso. apply Hnot. left.
    + injection Heq as <- Heq.
      destruct (IH before) as [-> ->]; [|exact Heq|split; reflexivity].
      intros Hin. apply Hnot. right. exact Hin.
Qed.

Lemma touch_not_save_event h marker evs :
  Forall (save_event h) evs -> EvTouch marker ∉ evs.
Proof.
  intros Hall Hin. rewrite Forall_forall in Hall.
  destruct (Hall _ Hin) as [Hf|Hs]; [exact Hf | discriminate].
Qed.

Lemma touch_not_on_file h marker evs :
  Forall (on_file h) evs -> EvTouch marker ∉ evs.
Proof.
  intros Hall Hin. rewrite Forall_forall in Hall. exact (Hall _ Hin).
Qed.

(** C7. In every execution of [save_h264_as_mp4] the creation of the marker
    is the last file event of a save that returns normally, and what comes
    before it ends with [os.sync], preceded on the continuation path by the
    final flush, the [fsync] and the close of the video file, with every
    write to the file before them.  So a marker that appears belongs to a
    video file that exists and is on the disk, and a save that raises - before
    the [fsync] or after it - creates no marker. *)
Theorem pending_marker_after_fsync
  (cfg : Config.Config) (filepath_mp4 : string) (use_continuation : bool)
  (target_fill_percent : option Q) (timeout_seconds : option Z) (w : World) :
  let h264 := str_replace ".mp4" ".h264" filepath_mp4 in
  let marker := h264 +:+ ".pending" in
  let run := save_h264_as_mp4 cfg filepath_mp4 use_continuation
               target_fill_percent timeout_seconds w in
  exists evs : list io_event,
    io_trace run.2 = io_trace w ++ evs /\
    (forall before after,
        evs = before ++ EvTouch marker :: after ->
        is_ok run.1 = true /\ after = [] /\
        exists pre,
          Forall (on_file h264) pre /\
          before = pre ++ (if use_continuation
                           then [EvFlush h264; EvFsync h264; EvClose h264]
                           else []) ++ [EvSync]) /\
    (fs w !! marker = None -> is_Some (fs run.2 !! marker) ->
     exists f, fs run.2 !! h264 = Some f /\ synced f = true) /\
    (is_ok run.1 = false ->
     (EvTouch marker ∉ evs) /\
     (fs w !! marker = None -> fs run.2 !! marker = None)).
Proof.
  cbv zeta.
  pose proof (save_h264_as_mp4_spec cfg filepath_mp4 use_continuation
                target_fill_percent timeout_seconds w) as Hspec.
  cbv zeta in Hspec. unfold wp in Hspec.
  destruct (save_h264_as_mp4 cfg filepath_mp4 use_continuation
              target_fill_percent timeout_seconds w) as [[est|e] w'].
  - cbn [fst snd] in *.
    destruct Hspec as (pre & f & Ht & Hpre & Hf & Hs & Hm).
    set (h264 := str_replace ".mp4" ".h264" filepath_mp4) in *.
    set (tail := if use_continuation
                 then [EvFlush h264; EvFsync h264; EvClose h264] else []) in *.
    exists (pre ++ tail ++ [EvSync; EvTouch (h264 +:+ ".pending")]).
    split; [exact Ht|]. split; [|split].
    + intros before after Heq.
      assert (EvTouch (h264 +:+ ".pending") ∉ pre ++ tail ++ [EvSync]) as Hnot.
      { rewrite !not_elem_of_app. repeat split.
        - eapply touch_not_on_file, Hpre.
        - subst tail. destruct use_continuation.
          + rewrite !not_elem_of_cons. repeat split; try discriminate.
            apply not_elem_of_nil.
          + apply not_elem_of_nil.
        - rewrite not_elem_of_cons. split; [discriminate | apply not_elem_of_nil]. }
      destruct (unique_last _ (pre ++ tail ++ [EvSync]) before after Hnot)
        as [-> ->].
      { rewrite <- Heq, <- !app_assoc. reflexivity. }
      split; [reflexivity|]. split; [reflexivity|].
      exists pre. split; [exact Hpre | reflexivity].
    + intros _ _. exists f. split; assumption.
    + discriminate.
  - cbn [fst snd] in *. destruct Hspec as ((evs & Ht & Hev) & Hfs).
    exists evs. split; [exact Ht|]. split; [|split].
    + intros before after Heq. exfalso.
      eapply touch_not_save_event; [exact Hev|].
      rewrite Heq. apply elem_of_app. right. left.
    + intros Hnone [x Hx].
      rewrite (Hfs _ (pending_marker_ne _) Hnone) in Hx. discriminate.
    + intros _. split.
      * eapply touch_not_save_event, Hev.
      * apply Hfs, pending_marker_ne.
Qed.

End MarkerFacts.

(** ** The event processor *)

Section ProcessorFacts.
Import Processor.

(** The call of [_process_event] names a keyword that the function does not
    have: the binding of the arguments fails before the body runs. *)
Lemma call_with_continuation_seconds cfg video_path0 w :
  call_save_h264_as_mp4 cfg [ArgStr video_path0]
    [("use_continuation", ArgBool true);
     ("continuation_seconds", ArgInt (Config.POST_MOTION_SECONDS cfg))] w
  = (Raise (TypeError "continuation_seconds"), w).
Proof. reflexivity. Qed.

(** Without that keyword the binding succeeds and the body runs. *)
Lemma call_without_continuation_seconds cfg video_path0 w :
  call_save_h264_as_mp4 cfg [ArgStr video_path0]
    [("use_continuation", ArgBool true)] w
  = Save.save_h264_as_mp4 cfg video_path0 true None None w.
Proof. reflexivity. Qed.

Lemma no_video_work_refl w : no_video_work w w.
Proof.
  split; [|auto]. exists []. split; [|constructor]. symmetry. apply app_nil_r.
Qed.

Lemma no_video_work_same w w1 w2 :
  io_trace w2 = io_trace w1 -> db w2 = db w1 ->
  no_video_work w w1 -> no_video_work w w2.
Proof.
  intros Ht Hd ((evs & Ht' & He) & Hrows). unfold no_video_work.
  rewrite Ht, Hd. eauto.
Qed.

Lemma no_video_work_with_faults w w1 fl :
  no_video_work w w1 -> no_video_work w (with_faults fl w1).
Proof. apply no_video_work_same; reflexivity. Qed.

Lemma no_video_work_with_clock w w1 t ds :
  no_video_work w w1 -> no_video_work w (with_clock t ds w1).
Proof. apply no_video_work_same; reflexivity. Qed.

Lemma no_video_work_with_log w w1 l m :
  no_video_work w w1 -> no_video_work w (with_log l m w1).
Proof. apply no_video_work_same; reflexivity. Qed.

Lemma no_video_work_still w w1 f ev :
  still_event ev -> no_video_work w w1 -> no_video_work w (with_fs f ev w1).
Proof.
  intros Hev ((evs & Ht & He) & Hrows). split; cbn; [|exact Hrows].
  exists (evs ++ [ev]). split.
  - rewrite Ht. symmetry. apply app_assoc.
  - apply Forall_app. split; [assumption | repeat constructor; assumption].
Qed.

Lemma no_video_work_update w w1 g id :
  (forall r, video_path (g r) = video_path r) ->
  (forall r, duration_seconds (g r) = duration_seconds r) ->
  no_video_work w w1 ->
  no_video_work w
    (with_db (mkDb (alter g id (events (db w1))) (sequence (db w1))
                (streaming (db w1))) w1).
Proof.
  intros Hv Hd ((evs & Ht & He) & Hrows). split; cbn; [eauto|].
  intros id'. destruct (Hrows id') as [<- <-].
  destruct (decide (id = id')) as [->|Hne].
  - rewrite lookup_alter_eq. destruct (events (db w1) !! id'); cbn;
      [rewrite Hv, Hd|]; split; reflexivity.
  - rewrite lookup_alter_ne by assumption. split; reflexivity.
Qed.

End ProcessorFacts.

Ltac no_video :=
  repeat first
    [ assumption
    | apply no_video_work_refl
    | apply no_video_work_with_faults
    | apply no_video_work_with_clock
    | apply no_video_work_with_log
    | apply no_video_work_still; [exact I|]
    | apply no_video_work_update; [reflexivity|reflexivity|] ].

Section ProcessEvent.
Import Processor.

(** C1.  What [_process_event] does for every event: the video is not saved.  No
    video file is opened, written or marked, and the row of the event keeps
    the [video_path] and the [duration_seconds] it had, because the call of
    [save_h264_as_mp4] fails while its arguments are bound. *)
Theorem process_event_saves_no_video
  (cfg : Config.Config) (event_id : Z) (timestamp_str : string) (w : World) :
  let run := _process_event cfg event_id timestamp_str w in
  run.1 = Ok tt /\ no_video_work w run.2.
Proof.
  cbv zeta. change (wp (_process_event cfg event_id timestamp_str)
                      (fun r w' => r = Ok tt /\ no_video_work w w') w).
  unfold _process_event, Still.capture_color_still, Still._create_thumbnail,
    Store.save_picture_b, Store.save_thumbnail, Store.get_connection,
    Store.update_row, os_path_exists.
  wp_steps; try (split; [reflexivity | no_video]).
  all: unfold wp; rewrite call_with_continuation_seconds; cbn [fst snd].
  all: wp_steps; split; [reflexivity | no_video].
Qed.

End ProcessEvent.

(** ** The invariant of the workers *)

Section InvariantFacts.
Variable cool : Z.

Lemma inv_same w1 w2 :
  now w2 = now w1 -> detector w2 = detector w1 ->
  set_calls w2 = set_calls w1 -> db w2 = db w1 ->
  _data (motion_event w2) = _data (motion_event w1) ->
  system_inv cool w1 -> system_inv cool w2.
Proof.
  intros Hn Hdet Hc Hdb Hs [H0 H1 H2 H3 H4 Hd H5 H6].
  constructor; rewrite ?Hn, ?Hdet, ?Hc, ?Hdb, ?Hs; assumption.
Qed.

Lemma inv_with_faults w fl : system_inv cool w -> system_inv cool (with_faults fl w).
Proof. apply inv_same; reflexivity. Qed.

Lemma inv_with_log w l m : system_inv cool w -> system_inv cool (with_log l m w).
Proof. apply inv_same; reflexivity. Qed.

Lemma inv_with_fs w f ev : system_inv cool w -> system_inv cool (with_fs f ev w).
Proof. apply inv_same; reflexivity. Qed.

Lemma inv_with_ring w en r : system_inv cool w -> system_inv cool (with_ring en r w).
Proof. apply inv_same; reflexivity. Qed.

Lemma inv_with_frames w cam b : system_inv cool w -> system_inv cool (with_frames cam b w).
Proof. apply inv_same; reflexivity. Qed.

Lemma inv_with_processor w p : system_inv cool w -> system_inv cool (with_processor p w).
Proof. apply inv_same; reflexivity. Qed.

Lemma inv_with_signal w s :
  _data s = _data (motion_event w) ->
  system_inv cool w -> system_inv cool (with_signal s (set_calls w) w).
Proof. intros Hs. apply inv_same; try reflexivity. exact Hs. Qed.

Lemma inv_with_clock w t ds :
  now w <= t -> system_inv cool w -> system_inv cool (with_clock t ds w).
Proof.
  intros Ht [H0 H1 H2 H3 H4 Hd H5 H6]. constructor; cbn; try assumption; lia.
Qed.

Lemma inv_with_paused w b :
  system_inv cool w -> system_inv cool (with_detector (Motion.set_paused b (detector w)) w).
Proof. intros [H0 H1 H2 H3 H4 Hd H5 H6]. constructor; assumption. Qed.

Lemma call_has_row_mono (m m' : gmap Z EventRow) c :
  (forall id row, m !! id = Some row ->
                  exists row', m' !! id = Some row' /\ timestamp row' = timestamp row) ->
  call_has_row m c -> call_has_row m' c.
Proof.
  intros Hmono [Hat (row & Hrow & Hts)]. split; [exact Hat|].
  destruct (Hmono _ _ Hrow) as (row' & Hrow' & Hts'). exists row'.
  split; [exact Hrow' | congruence].
Qed.

(** An [UPDATE] that keeps the timestamps. *)
Lemma inv_with_update w g id :
  (forall r, timestamp (g r) = timestamp r) ->
  system_inv cool w ->
  system_inv cool (with_db (mkDb (alter g id (events (db w))) (sequence (db w))
                         (streaming (db w))) w).
Proof.
  intros Hg [H0 H1 H2 H3 H4 Hd H5 H6]. constructor; cbn; try assumption.
  - intros id' row Hrow. destruct (decide (id = id')) as [->|Hne].
    + rewrite lookup_alter_eq in Hrow.
      destruct (events (db w) !! id') as [r|] eqn:Hr; [|discriminate].
      eapply H5. exact Hr.
    + rewrite lookup_alter_ne in Hrow by assumption. eapply H5. exact Hrow.
  - eapply Forall_impl; [exact H6|]. intros c. apply call_has_row_mono.
    intros id' row Hrow. destruct (decide (id = id')) as [->|Hne].
    + rewrite lookup_alter_eq, Hrow. cbn. eauto.
    + rewrite lookup_alter_ne by assumption. eauto.
Qed.

(** The [INSERT] of [add_new_event]: the new id is fresh. *)
Lemma inv_with_insert w row :
  system_inv cool w ->
  system_inv cool (with_db (mkDb (<[sequence (db w) + 1 := row]> (events (db w)))
                         (sequence (db w) + 1) (streaming (db w))) w).
Proof.
  intros [H0 H1 H2 H3 H4 Hd H5 H6]. constructor; cbn; try assumption.
  - intros id' row' Hrow.
    destruct (decide (sequence (db w) + 1 = id')) as [<-|Hne]; [lia|].
    rewrite lookup_insert_ne in Hrow by assumption.
    pose proof (H5 _ _ Hrow). lia.
  - eapply Forall_impl; [exact H6|]. intros c. apply call_has_row_mono.
    intros id' row' Hrow. exists row'. split; [|reflexivity].
    rewrite lookup_insert_ne; [exact Hrow|].
    pose proof (H5 _ _ Hrow). lia.
Qed.

Lemma not_in_cooldown_later d t t' :
  Motion._in_cooldown d t = false -> t <= t' -> Motion._in_cooldown d t' = false.
Proof.
  unfold Motion._in_cooldown.
  destruct (Motion.last_detection_time d =? 0); [reflexivity|].
  rewrite !Z.ltb_ge. lia.
Qed.

Lemma gaps_cons gap c calls :
  gaps_at_least gap calls ->
  (forall c', head calls = Some c' -> gap <= set_at c - set_at c') ->
  gaps_at_least gap (c :: calls).
Proof.
  intros Hgaps Hhead [|i] later earlier Hl He; cbn in *.
  - injection Hl as <-. apply Hhead. destruct calls; [discriminate|].
    cbn in *. congruence.
  - eapply Hgaps; eassumption.
Qed.

(** The signal followed by the start of the cooldown: [W] is the world after
    [last_detection_time] has been set, [w] the world in which [set] was
    called, [tcheck] the reading at which the detector was found out of
    cooldown. *)
Lemma inv_signalled w W tcheck id ts row s ds :
  system_inv cool w ->
  Motion._in_cooldown (detector w) tcheck = false ->
  tcheck <= now w ->
  events (db w) !! id = Some row -> timestamp row = ts ->
  _data s = Some (id, ts) ->
  forall t, now w <= t ->
  W = with_clock t ds
        (with_signal s
           ({| set_at := now w; set_event_id := id; set_timestamp := ts;
               row_at_set := events (db w) !! id |} :: set_calls w) w) ->
  system_inv cool (with_detector (Motion.set_last_detection_time t (detector W)) W).
Proof.
  intros [H0 H1 H2 H3 H4 Hd H5 H6] Hcool Hcheck Hrow Hts Hs t Ht ->.
  constructor; cbn; try assumption; try lia.
  - apply gaps_cons; [exact H3|]. intros c' Hc'. cbn.
    destruct (H4 _ Hc') as [Hne Hle].
    unfold Motion._in_cooldown in Hcool. rewrite H0 in Hcool.
    destruct (Z.eqb_spec (Motion.last_detection_time (detector w)) 0);
      [contradiction|].
    apply Z.ltb_ge in Hcool. lia.
  - intros c [= <-]. cbn. lia.
  - constructor; [|exact H6]. split; cbn; eauto.
Qed.

(** Steps that leave the detector alone keep it ready. *)
Lemma ready_same tc w1 w2 :
  detector w2 = detector w1 -> now w1 <= now w2 ->
  system_inv cool w2 -> ready cool tc w1 -> ready cool tc w2.
Proof.
  intros Hd Hn Hinv (_ & Hcool & Hle).
  split; [exact Hinv | split; [rewrite Hd; exact Hcool | lia]].
Qed.

Lemma ready_inv tc w : ready cool tc w -> system_inv cool w.
Proof. intros [H _]. exact H. Qed.

End InvariantFacts.

Ltac inv_solve :=
  repeat first
    [ assumption
    | apply inv_with_faults
    | apply inv_with_log
    | apply inv_with_fs
    | apply inv_with_ring
    | apply inv_with_frames
    | apply inv_with_processor
    | apply inv_with_signal; [first [reflexivity | cbn; congruence]|]
    | apply inv_with_paused
    | apply inv_with_clock; [first [assumption | cbn in *; lia]|]
    | apply inv_with_update; [reflexivity|]
    | apply inv_with_insert ].

(** ** The detector worker *)

Ltac ready_solve :=
  lazymatch goal with
  | H : ready ?cool ?tc ?w |- ready ?cool ?tc _ =>
      apply (ready_same cool tc w);
      [ reflexivity
      | cbn in *; lia
      | pose proof (ready_inv cool tc w H); inv_solve
      | exact H ]
  end.

Section DetectorFacts.
Import Detector.
Variable resize : ndarray -> ndarray.
Variable strftime : Z -> string.
Variable cfg : Config.Config.
Variable cool : Z.

Lemma capture_color_still_ready tc path w :
  ready cool tc w ->
  wp (Still.capture_color_still path) (fun _ w' => ready cool tc w') w.
Proof.
  intros Hr. unfold Still.capture_color_still.
  wp_steps; ready_solve.
Qed.

Lemma add_new_event_ready tc ts score path w :
  ready cool tc w ->
  wp (Store.add_new_event ts score path)
     (fun r w' =>
        ready cool tc w' /\
        forall id, r = Ok id ->
                   exists row, events (db w') !! id = Some row /\
                               timestamp row = ts) w.
Proof.
  intros Hr. unfold Store.add_new_event, Store.get_connection.
  wp_steps; (split; [ready_solve | try discriminate]).
  intros id [= <-]. cbn. rewrite lookup_insert_eq. eauto.
Qed.

(** The steps of a handled motion, started out of cooldown: the signal is
    set for a row that is in the store, and the cooldown starts. *)
Lemma handle_motion_steps_inv tc frame score w :
  ready cool tc w ->
  wp (handle_motion_steps strftime cfg frame score)
     (fun _ w' => system_inv cool w') w.
Proof.
  intros Hr. unfold handle_motion_steps.
  do 2 wp_step.
  match goal with
  | |- wp _ _ ?w1 => assert (ready cool tc w1) as Hr1 by ready_solve
  end.
  wp_call (capture_color_still_ready tc); [exact Hr1|]. intros [[]|e] w2 Hr2;
    [|exact (ready_inv _ _ _ Hr2)].
  wp_call (add_new_event_ready tc); [exact Hr2|]. intros [id|e] w3 [Hr3 Hrow];
    [|exact (ready_inv _ _ _ Hr3)].
  destruct (Hrow id eq_refl) as (row & Hid & Hts).
  destruct Hr3 as (Hinv3 & Hcool3 & Hle3).
  unfold Signal.set. wp_steps.
  eapply (inv_signalled cool w3 _ tc id t row
            {| _event := true; _data := Some (id, t) |});
    [exact Hinv3 | exact Hcool3 | exact Hle3 | exact Hid | exact Hts
    | reflexivity | eassumption | reflexivity].
Qed.

Lemma handle_motion_event_inv tc frame score w :
  ready cool tc w ->
  wp (_handle_motion_event strftime cfg frame score)
     (fun _ w' => system_inv cool w') w.
Proof.
  intros Hr. unfold _handle_motion_event. wp_step.
  eapply wp_mono; [apply (handle_motion_steps_inv tc); exact Hr|].
  intros [[]|e] w1 Hinv; [exact Hinv|]. wp_steps. inv_solve.
Qed.

Lemma detection_iteration_inv w :
  system_inv cool w ->
  wp (detection_iteration resize strftime cfg)
     (fun _ w' => system_inv cool w') w.
Proof.
  intros Hinv.
  unfold detection_iteration, _in_cooldown, get_frames_for_detection,
    debug_image, lift.
  wp_steps; try (inv_solve; fail).
  all: match goal with
       | |- wp _ _ ?W =>
           assert (ready cool (now W) W) as Hr by
             (split; [inv_solve | split; [| lia]];
              first
                [ unfold Motion._in_cooldown; cbn in *;
                  match goal with
                  | H : (_ =? 0) = true |- _ => rewrite H; reflexivity
                  end
                | cbn in *; eapply not_in_cooldown_later;
                  [eassumption | lia] ])
       end.
  all: eapply wp_mono; [apply (handle_motion_event_inv _ _ _ _ Hr)|].
  all: intros [[]|e] w1 Hinv1; wp_steps; inv_solve.
Qed.

End DetectorFacts.

(** ** The event processor worker and the system *)

Section SystemFacts.
Variable resize : ndarray -> ndarray.
Variable strftime : Z -> string.
Variable cfg : Config.Config.
Variable cool : Z.

Lemma wp_wait_and_get Q w :
  (_event (motion_event w) = true ->
   Q (Ok (_data (motion_event w)))
     (with_signal {| _event := false; _data := _data (motion_event w) |}
        (set_calls w) w)) ->
  (_event (motion_event w) = false -> Q (Ok None) w) ->
  wp Signal.wait_and_get Q w.
Proof.
  intros Hset Hclear. unfold wp, Signal.wait_and_get.
  destruct (_event (motion_event w)); cbn; auto.
Qed.

Lemma process_event_inv event_id timestamp_str w :
  system_inv cool w ->
  wp (Processor._process_event cfg event_id timestamp_str)
     (fun _ w' => system_inv cool w') w.
Proof.
  intros Hinv.
  unfold Processor._process_event, Still.capture_color_still,
    Still._create_thumbnail, Store.save_picture_b, Store.save_thumbnail,
    Store.get_connection, Store.update_row, os_path_exists.
  wp_steps; try (inv_solve; fail).
  all: unfold wp; rewrite call_with_continuation_seconds; cbn [fst snd].
  all: wp_steps; inv_solve.
Qed.

Lemma processing_iteration_inv w :
  system_inv cool w ->
  wp (Processor.processing_iteration strftime cfg)
     (fun _ w' => system_inv cool w') w.
Proof.
  intros Hinv. unfold Processor.processing_iteration, Processor.set_waiting.
  apply wp_try_except, wp_bind, wp_get.
  destruct (waiting (processor w)) eqn:Hwait.
  - apply wp_bind, wp_wait_and_get; intros Hev; [|wp_steps; inv_solve].
    destruct (_data (motion_event w)) as [[event_id timestamp0]|] eqn:Hdata;
      [|wp_steps; inv_solve].
    apply wp_bind, wp_modify.
    destruct (processor_paused (processor w)); [wp_steps; inv_solve|].
    eapply wp_mono; [apply process_event_inv; inv_solve|].
    intros [[]|e] w1 Hinv1; wp_steps; inv_solve.
  - wp_steps; inv_solve.
Qed.

Lemma step_inv a w :
  system_inv cool w ->
  system_inv cool (System.step resize strftime cfg a w).2.
Proof.
  intros Hinv. destruct a; cbn [System.step].
  - apply (detection_iteration_inv resize strftime cfg cool w Hinv).
  - unfold Detector.pause, modify. cbn. inv_solve.
  - unfold Detector.resume, modify. cbn. inv_solve.
  - apply (processing_iteration_inv w Hinv).
  - unfold Processor.pause, modify. cbn. inv_solve.
  - unfold Processor.resume, modify. cbn. inv_solve.
Qed.

Lemma run_inv actions w :
  system_inv cool w ->
  system_inv cool (System.run resize strftime cfg actions w).
Proof.
  revert w. induction actions as [|a actions IH]; intros w Hinv; [exact Hinv|].
  cbn. apply IH, step_inv, Hinv.
Qed.

End SystemFacts.

Lemma initial_world_inv cfg t0 ds fl en cam :
  0 < t0 ->
  system_inv (Config.MOTION_COOLDOWN_SECONDS cfg)
    (initial_world cfg t0 ds fl en cam).
Proof.
  intros Ht. constructor; cbn.
  - reflexivity.
  - exact Ht.
  - lia.
  - intros i later earlier Hl. rewrite lookup_nil in Hl. discriminate.
  - intros c0 [=].
  - reflexivity.
  - intros id row Hrow. rewrite lookup_empty in Hrow. discriminate.
  - constructor.
Qed.

(** ** Signals of the detector over the runs of the system *)

Section Signals.
Variable resize : ndarray -> ndarray.
Variable strftime : Z -> string.

(** C5.  In every run of the workers from start-up, whatever the
    interleaving of their steps and whatever the environment does, two
    successive calls of [set] are at least the cooldown apart; the detector
    keeps its cooldown, and the time of the last detection it has recorded
    is not before its newest call of [set] and not after the clock. *)
Theorem cooldown_between_signals
  (cfg : Config.Config) (t0 : Z) (ds : list N) (fl : list bool)
  (en : list (list (pyobj * pyobj))) (cam : list (list ndarray))
  (actions : list System.action) :
  0 < t0 ->
  let w := System.run resize strftime cfg actions
             (initial_world cfg t0 ds fl en cam) in
  gaps_at_least (seconds (Config.MOTION_COOLDOWN_SECONDS cfg)) (set_calls w) /\
  Motion.cooldown_seconds (detector w) = Config.MOTION_COOLDOWN_SECONDS cfg /\
  (forall c, head (set_calls w) = Some c ->
             set_at c <= Motion.last_detection_time (detector w) <= now w).
Proof.
  intros Ht w.
  assert (system_inv (Config.MOTION_COOLDOWN_SECONDS cfg) w) as Hinv
    by (apply run_inv, initial_world_inv, Ht).
  destruct Hinv as [H0 H1 H2 H3 H4 Hd H5 H6].
  split; [exact H3|]. split; [exact H0|].
  intros c Hc. destruct (H4 c Hc) as [_ Hle]. lia.
Qed.

(** C6.  In every run of the workers from start-up, every call of [set]
    was made for an event whose row was in the store at that moment, with
    the timestamp of the call, and the row is still there; so the payload
    that the event processor gets from [wait_and_get] names a row of the
    store with that timestamp. *)
Theorem signalled_event_has_row
  (cfg : Config.Config) (t0 : Z) (ds : list N) (fl : list bool)
  (en : list (list (pyobj * pyobj))) (cam : list (list ndarray))
  (actions : list System.action) :
  0 < t0 ->
  let w := System.run resize strftime cfg actions
             (initial_world cfg t0 ds fl en cam) in
  Forall (call_has_row (events (db w))) (set_calls w) /\
  (forall id t,
      (Signal.wait_and_get w).1 = Ok (Some (id, t)) ->
      exists row, events (db w) !! id = Some row /\ timestamp row = t).
Proof.
  intros Ht w.
  assert (system_inv (Config.MOTION_COOLDOWN_SECONDS cfg) w) as Hinv
    by (apply run_inv, initial_world_inv, Ht).
  destruct Hinv as [H0 H1 H2 H3 H4 Hd H5 H6].
  split; [exact H6|].
  intros id t. unfold Signal.wait_and_get.
  destruct (_event (motion_event w)); cbn; [|discriminate].
  rewrite Hd. destruct (set_calls w) as [|c calls]; cbn; [discriminate|].
  intros [= <- <-]. apply Forall_cons in H6 as [[_ Hrow] _]. exact Hrow.
Qed.

End Signals.

Lemma cooldown_between_signals_witness :
  0 < 1000 /\
  let w := System.run Samples.resize Samples.strftime Samples.sensitive_config
             Samples.busy_actions Samples.busy_world in
  gaps_at_least (seconds 65) (set_calls w) /\
  Motion.cooldown_seconds (detector w) = 65 /\
  (forall c, head (set_calls w) = Some c ->
             set_at c <= Motion.last_detection_time (detector w) <= now w).
Proof.
  split; [lia|].
  apply (cooldown_between_signals Samples.resize Samples.strftime
           Samples.sensitive_config 1000 [0; 0; 0; 0; 0; 0; 0; 0; 70000]%N
           [] [] [[Samples.dark; Samples.bright]; [Samples.dark];
                  [Samples.bright]] Samples.busy_actions).
  lia.
Defined.

Lemma signalled_event_has_row_witness :
  0 < 1000 /\
  let w := System.run Samples.resize Samples.strftime Samples.sensitive_config
             Samples.busy_actions Samples.busy_world in
  Forall (call_has_row (events (db w))) (set_calls w) /\
  (forall id t,
      (Signal.wait_and_get w).1 = Ok (Some (id, t)) ->
      exists row, events (db w) !! id = Some row /\ timestamp row = t).
Proof.
  split; [lia|].
  apply (signalled_event_has_row Samples.resize Samples.strftime
           Samples.sensitive_config 1000 [0; 0; 0; 0; 0; 0; 0; 0; 70000]%N
           [] [] [[Samples.dark; Samples.bright]; [Samples.dark];
                  [Samples.bright]] Samples.busy_actions).
  lia.
Defined.

(** ** A motion whose handling fails *)

Section FailedHandling.
Import Detector.
Variable strftime : Z -> string.
Variable cfg : Config.Config.

(** When the steps of the handling raise, nothing of the detector, of the
    signal and of its history has changed. *)
Lemma handle_motion_steps_raise frame score w :
  wp (handle_motion_steps strftime cfg frame score)
     (fun r w' =>
        forall e, r = Raise e ->
                  detector w' = detector w /\
                  set_calls w' = set_calls w /\
                  motion_event w' = motion_event w) w.
Proof.
  unfold handle_motion_steps, Still.capture_color_still, Store.add_new_event,
    Store.get_connection, Signal.set.
  wp_steps; intros e' He; try discriminate; repeat split; reflexivity.
Qed.

(** C10.  If a step of the handling of a motion raises, [_handle_motion_event]
    logs the error and returns: the detector, with its time of the last
    detection, is as before, no signal has been set and the payload of the
    signal is as before; a detector that was out of cooldown is out of
    cooldown at every later reading of the clock, so the next iteration
    looks for motion again. *)
Theorem failed_handling_enters_no_cooldown
  (frame : ndarray) (score : Z) (w : World) (e : exn) :
  (handle_motion_steps strftime cfg frame score w).1 = Raise e ->
  let r := _handle_motion_event strftime cfg frame score w in
  r.1 = Ok tt /\
  detector r.2 = detector w /\
  set_calls r.2 = set_calls w /\
  motion_event r.2 = motion_event w /\
  last (logs r.2) = Some (ERROR, ErrorHandlingMotionEvent e) /\
  (forall tcheck t,
      Motion._in_cooldown (detector w) tcheck = false -> tcheck <= t ->
      Motion._in_cooldown (detector r.2) t = false).
Proof.
  intros Hraise. cbv zeta.
  pose proof (handle_motion_steps_raise frame score w) as Hsteps.
  unfold wp in Hsteps. unfold _handle_motion_event, try_except.
  destruct (handle_motion_steps strftime cfg frame score w) as [r w1].
  cbn in Hraise, Hsteps. subst r.
  destruct (Hsteps e eq_refl) as (Hd & Hc & Hm).
  unfold log, modify. cbn.
  repeat split; try assumption.
  - apply last_snoc.
  - intros tcheck t Hcool Hle. rewrite Hd.
    eapply not_in_cooldown_later; eassumption.
Qed.

End FailedHandling.

Lemma failed_handling_enters_no_cooldown_witness :
  (Detector.handle_motion_steps Samples.strftime Samples.sensitive_config
     Samples.bright 1 Samples.failing_camera_world).1 = Raise CameraError /\
  let r := Detector._handle_motion_event Samples.strftime
             Samples.sensitive_config Samples.bright 1
             Samples.failing_camera_world in
  r.1 = Ok tt /\
  detector r.2 = detector Samples.failing_camera_world /\
  set_calls r.2 = set_calls Samples.failing_camera_world /\
  motion_event r.2 = motion_event Samples.failing_camera_world /\
  last (logs r.2) = Some (ERROR, ErrorHandlingMotionEvent CameraError) /\
  (forall tcheck t,
      Motion._in_cooldown (detector Samples.failing_camera_world) tcheck = false ->
      tcheck <= t ->
      Motion._in_cooldown (detector r.2) t = false).
Proof.
  split; [vm_compute; reflexivity|].
  apply (failed_handling_enters_no_cooldown Samples.strftime
           Samples.sensitive_config Samples.bright 1
           Samples.failing_camera_world CameraError).
  vm_compute. reflexivity.
Defined.

(** ** Validation of the configuration at start-up *)

Section Validation.
Import Config Main.

Lemma run_not_started_of_raise cfg env e :
  validate_config cfg = Raise e ->
  Main.run cfg env = (1, []).
Proof. intros H. unfold Main.run, initialize. rewrite H. reflexivity. Qed.

(** C9, as the spec states it, does not hold: a configuration with a ring of
    100 chunks and a resolution of 800x600 passes the validation with two
    warnings, the workers are started and the exit code is 0. *)
Lemma small_buffer_is_not_fatal :
  ~ (forall cfg env,
        cooldown_too_short cfg \/ buffer_too_small cfg \/
        resolution_unsupported cfg ->
        is_ok (validate_config cfg) = false /\ (Main.run cfg env).1 = 1).
Proof.
  intros H.
  destruct (H Samples.small_buffer_config Samples.healthy) as [Hv _].
  - right. left. unfold buffer_too_small. cbn. lia.
  - vm_compute in Hv. discriminate.
Qed.

(** C9, amended.  Only a cooldown below 17 seconds is fatal: the validation
    raises [ValueError], [run] returns 1 and no component is created or
    started.  With a cooldown of at least 17 seconds the validation returns;
    a ring below 300 chunks and a resolution outside the three standard ones
    only give a warning each, and on a machine where the directories, the
    database and the camera work the workers are started and [run]
    returns 0. *)
Theorem only_short_cooldown_is_fatal (cfg : Config) (env : Environment) :
  (cooldown_too_short cfg ->
   validate_config cfg = Raise ValueError /\ Main.run cfg env = (1, [])) /\
  (~ cooldown_too_short cfg ->
   exists warnings,
     validate_config cfg = Ok warnings /\
     (buffer_too_small cfg <-> LowBufferCapacity ∈ warnings) /\
     (resolution_unsupported cfg <-> NonStandardResolution ∈ warnings) /\
     (makedirs_ok env = true -> database_ok env = true ->
      camera_ok env = true ->
      (Main.run cfg env).1 = 0 /\
      Started MotionDetectorC ∈ (Main.run cfg env).2 /\
      Started EventProcessorC ∈ (Main.run cfg env).2)).
Proof.
  unfold cooldown_too_short, buffer_too_small, resolution_unsupported.
  split.
  - intros Hshort.
    assert (validate_config cfg = Raise ValueError) as Hv.
    { unfold validate_config.
      destruct (Z.ltb_spec (MOTION_COOLDOWN_SECONDS cfg) 17); [reflexivity|lia]. }
    split; [exact Hv|]. eapply run_not_started_of_raise, Hv.
  - intros Hlong. unfold Main.run, initialize, validate_config.
    destruct (Z.ltb_spec (MOTION_COOLDOWN_SECONDS cfg) 17) as [|_]; [lia|].
    eexists. split; [reflexivity|]. split; [|split].
    + destruct (Z.ltb_spec (CIRCULAR_BUFFER_MAX_CHUNKS cfg) 300).
      * split; [intros _|intros _; assumption].
        rewrite !elem_of_app. right. right. left. apply list_elem_of_singleton.
        reflexivity.
      * split; [lia|]. intros Hin.
        rewrite !elem_of_app in Hin.
        repeat match goal with
               | H : _ \/ _ |- _ => destruct H
               | H : _ ∈ (if ?b then _ else _) |- _ => destruct b
               | H : _ ∈ [] |- _ => apply elem_of_nil in H; contradiction
               | H : _ ∈ [_] |- _ => apply list_elem_of_singleton in H; discriminate
               end.
    + destruct (standard_resolution (VIDEO_RESOLUTION cfg)).
      * split; [discriminate|]. intros Hin.
        rewrite !elem_of_app in Hin.
        repeat match goal with
               | H : _ \/ _ |- _ => destruct H
               | H : _ ∈ (if ?b then _ else _) |- _ => destruct b
               | H : _ ∈ [] |- _ => apply elem_of_nil in H; contradiction
               | H : _ ∈ [_] |- _ => apply list_elem_of_singleton in H; discriminate
               end.
      * split; [intros _|reflexivity].
        rewrite !elem_of_app. left. apply list_elem_of_singleton. reflexivity.
    + intros -> -> Hcam. cbn. unfold start. rewrite Hcam. cbn.
      split; [reflexivity|].
      rewrite !elem_of_cons. split; repeat (first [left; reflexivity | right]).
Qed.

End Validation.

Lemma only_short_cooldown_is_fatal_witness :
  Main.cooldown_too_short Samples.short_cooldown_config /\
  Config.validate_config Samples.short_cooldown_config = Raise ValueError /\
  Main.run Samples.short_cooldown_config Samples.healthy = (1, []).
Proof.
  split; [unfold Main.cooldown_too_short; cbn; lia|].
  apply (only_short_cooldown_is_fatal Samples.short_cooldown_config
           Samples.healthy).
  unfold Main.cooldown_too_short. cbn. lia.
Defined.

(** ** The processing of a sample event *)

(** The event that the detector signals first in the sample world: its
    processing saves Picture B and the thumbnail, then the call of
    [save_h264_as_mp4] raises [TypeError]; the row keeps an empty
    [video_path] and the default [duration_seconds], and no video file is
    written. *)
Lemma process_event_on_sample_event :
  let w := (System.step Samples.resize Samples.strftime
              Samples.sensitive_config System.DetectorIteration
              Samples.busy_world).2 in
  let r := Processor._process_event Samples.sensitive_config 1
             (Samples.strftime 1000) w in
  _data (motion_event w) = Some (1, 1000) /\
  r.1 = Ok tt /\
  logs r.2 = [(ERROR, ErrorProcessingEvent 1 (TypeError "continuation_seconds"))] /\
  image_b_path <$> events (db r.2) !! 1
  = Some (Some "/home/pi/sec_cam/pictures/2025.01.01--00.00.00_b.jpg") /\
  thumbnail_path <$> events (db r.2) !! 1
  = Some (Some "/home/pi/sec_cam/thumbs/2025.01.01--00.00.00_b.jpg") /\
  video_path <$> events (db r.2) !! 1 = Some None /\
  duration_seconds <$> events (db r.2) !! 1 = Some 30 /\
  io_trace r.2
  = [EvStill "/home/pi/sec_cam/pictures/2025.01.01--00.00.00_a.jpg";
     EvStill "/home/pi/sec_cam/pictures/2025.01.01--00.00.00_b.jpg";
     EvThumbnail "/home/pi/sec_cam/thumbs/2025.01.01--00.00.00_b.jpg"].
Proof. vm_compute. repeat split; reflexivity. Qed.
